(** * LLM Training Platform: a shallow embedding of its service logic

    The development follows four source files of the platform:

    - [data_structuring/chunking/chunking_service.py] (text chunking),
    - [model_training/training/training_manager.py] (simulated training runs),
    - [agent_deployment/service/agent_manager.py] (the registry of deployed agents),
    - [model_training/rag/rag_service.py] (retrieval followed by generation),

    together with the attribute layout of [common/config/settings.py].

    Python values are modelled as the code has them: a [str] is a list of
    Unicode code points, an [int] is a [Z], a [float] is a binary64 float, a
    [dict] keyed by strings is a [gmap], and a function that may raise returns
    a [result].  Module-level dictionaries that the code mutates are fields of
    an explicit state that every operation threads through. *)

From Stdlib Require Import ZArith NArith List String Ascii Bool Lia Floats.
From stdpp Require Import base functions gmap strings pretty list.

Local Open Scope Z_scope.

(** ** Python basics *)

(** The exceptions that the modelled code can raise. *)
Inductive exn : Type :=
  | ValueError (msg : string)
  | AttributeError (attr : string)
  | KeyError (key : string)
  | TypeError.

(** The outcome of a call that either returns or raises. *)
Inductive result (A : Type) : Type :=
  | Ok (a : A)
  | Raise (e : exn).
Arguments Ok {A} a.
Arguments Raise {A} e.

(** A [str] is a sequence of code points. *)
Abbreviation char := N.
Abbreviation pystr := (list N).

Definition str (s : string) : pystr := map N_of_ascii (list_ascii_of_string s).

(** [len(s)] as a Python integer. *)
Definition len {A} (s : list A) : Z := Z.of_nat (length s).

(** An empty sequence is falsy, any other is truthy. *)
Definition truthy {A} (s : list A) : bool :=
  match s with [] => false | _ :: _ => true end.

(** Normalisation of a slice bound against a sequence of length [n]: a negative
    bound counts from the end, and every bound is clamped into [0 .. n]. *)
Definition clamp_index (n i : Z) : Z :=
  if i <? 0 then Z.max (i + n) 0 else Z.min i n.

(** [s[lo:hi]]. *)
Definition slice {A} (s : list A) (lo hi : Z) : list A :=
  let lo' := clamp_index (len s) lo in
  let hi' := clamp_index (len s) hi in
  take (Z.to_nat (hi' - lo')) (drop (Z.to_nat lo') s).

(** [s[lo:]]. *)
Definition slice_from {A} (s : list A) (lo : Z) : list A :=
  drop (Z.to_nat (clamp_index (len s) lo)) s.

(** [len(range(start, stop, step))] for a non-zero step. *)
Definition range_length (start stop step : Z) : Z :=
  if (0 <? step) && (start <? stop) then 1 + (stop - 1 - start) / step
  else if (step <? 0) && (stop <? start) then 1 + (start - 1 - stop) / (- step)
  else 0.

(** [range(start, stop, step)]; a zero step raises [ValueError]. *)
Definition range (start stop step : Z) : result (list Z) :=
  if step =? 0 then Raise (ValueError "range() arg 3 must not be zero")
  else Ok (map (fun k : nat => start + Z.of_nat k * step)
               (seq 0 (Z.to_nat (range_length start stop step)))).

(** [str.isspace] on one code point: the interpreter's whitespace table. *)
Definition isspace (c : char) : bool :=
  (((9 <=? c) && (c <=? 13)) || ((28 <=? c) && (c <=? 32))
   || (c =? 133) || (c =? 160) || (c =? 5760)
   || ((8192 <=? c) && (c <=? 8202))
   || (c =? 8232) || (c =? 8233) || (c =? 8239) || (c =? 8287)
   || (c =? 12288))%N.

Fixpoint take_while {A} (p : A -> bool) (s : list A) : list A :=
  match s with
  | [] => []
  | c :: s' => if p c then c :: take_while p s' else []
  end.

Fixpoint drop_while {A} (p : A -> bool) (s : list A) : list A :=
  match s with
  | [] => []
  | c :: s' => if p c then drop_while p s' else s
  end.

(** [s.strip()]: leading and trailing whitespace removed. *)
Definition lstrip (s : pystr) : pystr := drop_while isspace s.
Definition rstrip (s : pystr) : pystr := rev (drop_while isspace (rev s)).
Definition strip (s : pystr) : pystr := rstrip (lstrip s).

(** [s.endswith(t)]. *)
Definition endswith (s t : pystr) : bool :=
  (length t <=? length s)%nat && bool_decide (drop (length s - length t) s = t).

(** [s.split()]: the maximal runs of non-whitespace characters.  [cur] holds
    the run being read, most recent character first. *)
Fixpoint split_ws_from (cur : pystr) (s : pystr) : list pystr :=
  match s with
  | [] => if truthy cur then [rev cur] else []
  | c :: s' =>
      if isspace c
      then (if truthy cur then rev cur :: split_ws_from [] s' else split_ws_from [] s')
      else split_ws_from (c :: cur) s'
  end.

Definition split_ws (s : pystr) : list pystr := split_ws_from [] s.

(** [sep.join(parts)]. *)
Fixpoint join (sep : pystr) (parts : list pystr) : pystr :=
  match parts with
  | [] => []
  | [p] => p
  | p :: ps => p ++ sep ++ join sep ps
  end.

(** ** Regular expressions, as far as the chunker uses them

    A pattern is given by its matcher at one position: from the text before
    the position (nearest character first, for look-behind) and the text from
    the position on, the length of the match that the backtracking engine
    finds there, if any.  Every pattern below consumes at least one
    character. *)
Definition pattern : Type := pystr -> pystr -> option nat.

(** The spans [(start, end)] of the non-overlapping matches, scanning left to
    right as [re.finditer] does.  [skip] counts the characters still covered
    by the match found last. *)
Fixpoint finditer_from (p : pattern) (before s : pystr) (pos skip : nat)
  : list (nat * nat) :=
  match s with
  | [] => []
  | c :: s' =>
      match skip with
      | S k => finditer_from p (c :: before) s' (S pos) k
      | O =>
          match p before s with
          | Some (S k) =>
              (pos, (pos + S k)%nat) :: finditer_from p (c :: before) s' (S pos) k
          | _ => finditer_from p (c :: before) s' (S pos) 0
          end
      end
  end.

Definition finditer (p : pattern) (s : pystr) : list (nat * nat) :=
  finditer_from p [] s 0 0.

(** The pieces of [s] between the spans, from offset [from] on. *)
Fixpoint pieces_between (s : pystr) (from : nat) (spans : list (nat * nat))
  : list pystr :=
  match spans with
  | [] => [drop from s]
  | (a, b) :: spans' => take (a - from) (drop from s) :: pieces_between s b spans'
  end.

(** [re.split(p, s)] for a pattern without groups. *)
Definition re_split (p : pattern) (s : pystr) : list pystr :=
  pieces_between s 0 (finditer p s).

(** [re.sub(p, repl, s)], where [repl] maps the matched text to its
    replacement. *)
Fixpoint sub_between (repl : pystr -> pystr) (s : pystr) (from : nat)
  (spans : list (nat * nat)) : pystr :=
  match spans with
  | [] => drop from s
  | (a, b) :: spans' =>
      take (a - from) (drop from s) ++ repl (take (b - a) (drop a s))
        ++ sub_between repl s b spans'
  end.

Definition re_sub (p : pattern) (repl : pystr -> pystr) (s : pystr) : pystr :=
  sub_between repl s 0 (finditer p s).

(** [s] starts with [t]. *)
Fixpoint startswith (s t : pystr) : bool :=
  match t, s with
  | [], _ => true
  | _ :: _, [] => false
  | d :: t', c :: s' => (c =? d)%N && startswith s' t'
  end.

(** A literal alternation [a1|a2|...]: the first alternative that matches. *)
Fixpoint match_alternatives (alts : list pystr) : pattern :=
  fun before s =>
    match alts with
    | [] => None
    | a :: alts' =>
        if startswith s a then Some (length a) else match_alternatives alts' before s
    end.

(** ** [chunking_service.py]: the chunking service *)

(** [ChunkStrategy] of [data_structuring/api/schemas.py]. *)
Inductive ChunkStrategy : Type := FIXED_SIZE | SENTENCE | PARAGRAPH | SEMANTIC.

Definition chr (a : ascii) : char := N_of_ascii a.
Definition dot : char := chr ".".
Definition newline : char := 10%N.

Definition is_upper (c : char) : bool := ((65 <=? c) && (c <=? 90))%N.
Definition is_lower (c : char) : bool := ((97 <=? c) && (c <=? 122))%N.
Definition is_digit (c : char) : bool := ((48 <=? c) && (c <=? 57))%N.

(** [[.!?]] *)
Definition is_terminator (c : char) : bool :=
  ((c =? dot) || (c =? chr "!") || (c =? chr "?"))%N.

(** The text up to and including the last occurrence of [d] in [s], by its
    length. *)
Fixpoint end_of_last (d : char) (s : pystr) : option nat :=
  match s with
  | [] => None
  | c :: s' =>
      match end_of_last d s' with
      | Some k => Some (S k)
      | None => if (c =? d)%N then Some 1%nat else None
      end
  end.

(** [r'[.!?]\s+'] *)
Definition sentence_end_re : pattern :=
  fun _ s =>
    match s with
    | c :: rest =>
        if is_terminator c then
          match length (take_while isspace rest) with
          | O => None
          | S n => Some (S (S n))
          end
        else None
    | [] => None
    end.

(** [r'\n\s*\n']: the greedy [\s*] takes the whole run of whitespace and gives
    characters back until the run ends in a newline. *)
Definition paragraph_break_re : pattern :=
  fun _ s =>
    match s with
    | c :: rest =>
        if (c =? newline)%N then
          match end_of_last newline (take_while isspace rest) with
          | Some k => Some (S k)
          | None => None
          end
        else None
    | [] => None
    end.

(** [r'(Mr\.|Mrs\.|Dr\.|Prof\.|etc\.)'] *)
Definition abbreviation_re : pattern :=
  match_alternatives [str "Mr."; str "Mrs."; str "Dr."; str "Prof."; str "etc."].

(** [r'<POINT>'] *)
Definition point_re : pattern := match_alternatives [str "<POINT>"].

Section ChunkingService.

(** [str.isalnum] outside ASCII is read from the interpreter's Unicode
    database, which the chunker takes as given. *)
Variable unicode_isalnum : char -> bool.

(** [\w] *)
Definition is_word (c : char) : bool :=
  if (c <? 128)%N
  then is_upper c || is_lower c || is_digit c || (c =? chr "_")%N
  else unicode_isalnum c.

(** [(?<!\w\.\w.)]'s body, read backwards from the position. *)
Definition behind_dotted (before : pystr) : bool :=
  match before with
  | b1 :: b2 :: b3 :: b4 :: _ =>
      is_word b4 && (b3 =? dot)%N && is_word b2 && negb (b1 =? newline)%N
  | _ => false
  end.

(** [(?<![A-Z][a-z]\.)]'s body. *)
Definition behind_initial (before : pystr) : bool :=
  match before with
  | b1 :: b2 :: b3 :: _ => is_upper b3 && is_lower b2 && (b1 =? dot)%N
  | _ => false
  end.

(** [(?<=\.|\?|\!)]'s body. *)
Definition behind_terminator (before : pystr) : bool :=
  match before with
  | b1 :: _ => ((b1 =? dot) || (b1 =? chr "?") || (b1 =? chr "!"))%N
  | [] => false
  end.

(** [r'(?<!\w\.\w.)(?<![A-Z][a-z]\.)(?<=\.|\?|\!)\s'] *)
Definition sentence_boundary_re : pattern :=
  fun before s =>
    match s with
    | c :: _ =>
        if negb (behind_dotted before) && negb (behind_initial before)
           && behind_terminator before && isspace c
        then Some 1%nat else None
    | [] => None
    end.

Definition _split_into_sentences (text : pystr) : list pystr :=
  let text := re_sub abbreviation_re (fun m => m ++ str "<POINT>") text in
  let sentences := re_split sentence_boundary_re text in
  let sentences := map (re_sub point_re (fun _ => str ".")) sentences in
  filter (fun s => truthy (strip s) = true) sentences.

Definition _split_into_paragraphs (text : pystr) : list pystr :=
  let paragraphs := re_split paragraph_break_re text in
  filter (fun p => truthy (strip p) = true) paragraphs.

(** One iteration of the loop of [_chunk_by_fixed_size]. *)
Definition fixed_size_step (text : pystr) (chunk_size : Z)
  (chunks : list pystr) (i : Z) : list pystr :=
  let chunk := slice text i (i + chunk_size) in
  if truthy (strip chunk) then chunks ++ [chunk] else chunks.

Definition _chunk_by_fixed_size (text : pystr) (chunk_size chunk_overlap : Z)
  : result (list pystr) :=
  let chunks := [] in
  let step_size := chunk_size - chunk_overlap in
  let step_size := if step_size <=? 0 then chunk_size else step_size in
  match range 0 (len text) step_size with
  | Raise e => Raise e
  | Ok indices => Ok (fold_left (fixed_size_step text chunk_size) indices chunks)
  end.

(** One iteration of the loop of [_chunk_by_sentence], on the pair of
    [chunks] and [current_chunk]. *)
Definition sentence_step (chunk_size chunk_overlap : Z)
  (st : list pystr * pystr) (sentence : pystr) : list pystr * pystr :=
  let '(chunks, current_chunk) := st in
  let '(chunks, current_chunk) :=
    if (len current_chunk + len sentence >? chunk_size) && truthy current_chunk
    then
      let chunks := chunks ++ [current_chunk] in
      if chunk_overlap >? 0 then
        let overlap_text := slice_from current_chunk (- chunk_overlap) in
        let sentence_boundaries := finditer sentence_end_re overlap_text in
        match list.last sentence_boundaries with
        | Some (_, last_boundary) =>
            (chunks,
             slice_from current_chunk (- chunk_overlap + Z.of_nat last_boundary))
        | None =>
            let words := split_ws overlap_text in
            if truthy words
            then (chunks, join (str " ") (slice_from words (- Z.min 5 (len words))))
            else (chunks, [])
        end
      else (chunks, [])
    else (chunks, current_chunk) in
  let current_chunk :=
    if truthy current_chunk && negb (endswith current_chunk (str " "))
    then current_chunk ++ str " " else current_chunk in
  (chunks, current_chunk ++ sentence).

Definition _chunk_by_sentence (text : pystr) (chunk_size chunk_overlap : Z)
  : list pystr :=
  let sentences := _split_into_sentences text in
  let '(chunks, current_chunk) :=
    fold_left (sentence_step chunk_size chunk_overlap) sentences ([], []) in
  if truthy (strip current_chunk) then chunks ++ [current_chunk] else chunks.

(** One iteration of the loop of [_chunk_by_paragraph]. *)
Definition paragraph_step (chunk_size chunk_overlap : Z)
  (st : list pystr * pystr) (paragraph : pystr) : list pystr * pystr :=
  let '(chunks, current_chunk) := st in
  let '(chunks, current_chunk) :=
    if (len current_chunk + len paragraph >? chunk_size) && truthy current_chunk
    then
      let chunks := chunks ++ [current_chunk] in
      if chunk_overlap >? 0 then
        let overlap_text := slice_from current_chunk (- chunk_overlap) in
        let paragraph_boundaries := finditer paragraph_break_re overlap_text in
        match list.last paragraph_boundaries with
        | Some (_, last_boundary) =>
            (chunks,
             slice_from current_chunk (- chunk_overlap + Z.of_nat last_boundary))
        | None =>
            let sentences := _split_into_sentences overlap_text in
            match list.last sentences with
            | Some s => (chunks, s)
            | None => (chunks, [])
            end
        end
      else (chunks, [])
    else (chunks, current_chunk) in
  let current_chunk :=
    if truthy current_chunk && negb (endswith current_chunk [newline; newline])
    then current_chunk ++ [newline; newline] else current_chunk in
  (chunks, current_chunk ++ paragraph).

Definition _chunk_by_paragraph (text : pystr) (chunk_size chunk_overlap : Z)
  : list pystr :=
  let paragraphs := _split_into_paragraphs text in
  let '(chunks, current_chunk) :=
    fold_left (paragraph_step chunk_size chunk_overlap) paragraphs ([], []) in
  if truthy (strip current_chunk) then chunks ++ [current_chunk] else chunks.

(** Semantic chunking falls back to sentence-based chunking. *)
Definition _chunk_by_semantic (text : pystr) (chunk_size chunk_overlap : Z)
  : list pystr :=
  _chunk_by_sentence text chunk_size chunk_overlap.

(** [ChunkingService.chunk_text].  The final [else] of the source is taken
    by no member of [ChunkStrategy]. *)
Definition chunk_text (text : pystr) (chunk_size chunk_overlap : Z)
  (strategy : ChunkStrategy) : result (list pystr) :=
  if negb (truthy text) then Ok []
  else
    match strategy with
    | FIXED_SIZE => _chunk_by_fixed_size text chunk_size chunk_overlap
    | SENTENCE => Ok (_chunk_by_sentence text chunk_size chunk_overlap)
    | PARAGRAPH => Ok (_chunk_by_paragraph text chunk_size chunk_overlap)
    | SEMANTIC => Ok (_chunk_by_semantic text chunk_size chunk_overlap)
    end.

End ChunkingService.

(** [c in t] for strings: [c] occurs in [t] as a contiguous run. *)
Fixpoint contains (t c : pystr) : bool :=
  startswith t c || match t with [] => false | _ :: t' => contains t' c end.

(** [c] is a contiguous slice of [t]. *)
Definition is_slice_of (c t : pystr) : Prop := exists pre post, t = pre ++ c ++ post.

(** The step between two chunk starts of fixed-size chunking, when
    [chunk_size] is positive. *)
Definition fixed_step (chunk_size chunk_overlap : Z) : Z :=
  if 0 <? chunk_size - chunk_overlap then chunk_size - chunk_overlap else chunk_size.

(** The chunk starts [0, step, 2*step, ...] below [len(text)]. *)
Definition chunk_starts (text : pystr) (step : Z) : list Z :=
  map (fun k : nat => Z.of_nat k * step)
      (seq 0 (Z.to_nat ((len text + step - 1) / step))).

(** A chunk that [strip()] does not empty. *)
Definition nonblank (c : pystr) : Prop := truthy (strip c) = true.

(** ** [training_manager.py]: simulated training runs *)

Set Warnings "-inexact-float".


(** A value of type [Any], as far as hyperparameters hold them. *)
Inductive pyval : Type :=
  | PyNone
  | PyBool (b : bool)
  | PyInt (z : Z)
  | PyFloat (x : float)
  | PyStr (s : string).

Module ModelType.
Inductive t : Type := FINE_TUNED | RAG.
End ModelType.

Module ModelStatus.
Inductive t : Type := CREATED | TRAINING | READY | FAILED | ARCHIVED.
End ModelStatus.

Module TrainingType.
Inductive t : Type := FULL_FINE_TUNING | LORA | QLORA | PEFT.
End TrainingType.

Module TrainingStatus.
Inductive t : Type := PENDING | PREPARING | RUNNING | COMPLETED | FAILED | CANCELLED.
End TrainingStatus.



Record Model : Type := {
  model_name : string;
  model_base_model : string;
  model_type : ModelType.t;
  model_status : ModelStatus.t;
}.

























(** ** [settings.py]: the attributes of the settings object *)

(** What reading an attribute of the settings object gives. *)
Inductive attr_value : Type :=
  | AttrStr (s : string)
  | AttrInt (z : Z)
  | AttrSettings (class_name : string).

(** An object, by what [obj.name] gives for each name. *)
Definition PyObject : Type := string -> result attr_value.

(** [AgentSettings]. *)
Record AgentSettings : Type := {
  max_deployed_agents : Z;
  agent_timeout_seconds : Z;
  default_temperature : float;
  default_top_k : Z;
  default_top_p : float;
}.

(** [Settings]: four strings and nine groups of sub-settings, of which the
    agent group is spelled out. *)
Record Settings : Type := {
  app_name : string;
  version : string;
  description : string;
  environment : string;
  agent : AgentSettings;
}.

(** The fields that [Settings] declares; any other name raises
    [AttributeError].  The limit and the timeout of agents live one level
    down, as [settings.agent.max_deployed_agents] and
    [settings.agent.agent_timeout_seconds]. *)
Definition settings_object (s : Settings) : PyObject :=
  fun name =>
    if decide (name = "app_name") then Ok (AttrStr (app_name s))
    else if decide (name = "version") then Ok (AttrStr (version s))
    else if decide (name = "description") then Ok (AttrStr (description s))
    else if decide (name = "environment") then Ok (AttrStr (environment s))
    else if decide (name = "db") then Ok (AttrSettings "DatabaseSettings")
    else if decide (name = "api") then Ok (AttrSettings "APISettings")
    else if decide (name = "security") then Ok (AttrSettings "SecuritySettings")
    else if decide (name = "storage") then Ok (AttrSettings "StorageSettings")
    else if decide (name = "ocr") then Ok (AttrSettings "OCRSettings")
    else if decide (name = "log") then Ok (AttrSettings "LogSettings")
    else if decide (name = "model") then Ok (AttrSettings "ModelSettings")
    else if decide (name = "vector_db") then Ok (AttrSettings "VectorDBSettings")
    else if decide (name = "agent") then Ok (AttrSettings "AgentSettings")
    else Raise (AttributeError name).

(** [n >= v] for an integer [n]: an integer compares, anything else raises
    [TypeError]. *)
Definition int_ge (n : Z) (v : attr_value) : result bool :=
  match v with
  | AttrInt z => Ok (z <=? n)
  | _ => Raise TypeError
  end.

(** ** [agent_manager.py]: the registry of deployed agents *)

Module AgentType.
Inductive t : Type := FINE_TUNED | RAG.
End AgentType.

Module AgentStatus.
Inductive t : Type := CREATED | DEPLOYING | DEPLOYED | FAILED | STOPPED.
End AgentStatus.

#[local] Set Warnings "-register-all".

(** A value of a configuration dictionary. *)
Inductive config_value : Type :=
  | ConfigAtom (v : pyval)
  | ConfigDict (d : list (string * config_value)).

Abbreviation config_dict := (list (string * config_value)).

(** [d[k] = v] on a dictionary kept in insertion order. *)
Fixpoint dict_set (k : string) (v : config_value) (d : config_dict) : config_dict :=
  match d with
  | [] => [(k, v)]
  | (k', v') :: d' =>
      if decide (k' = k) then (k, v) :: d' else (k', v') :: dict_set k v d'
  end.

(** [d.update(other)] *)
Definition dict_update (d other : config_dict) : config_dict :=
  fold_left (fun acc kv => dict_set kv.1 kv.2 acc) other d.

(** Modelled from the spec: the row [Agent] of
    [agent_deployment/models/agent.py], which is not part of the sources at
    hand; an agent is "tracked as a database row with a status enum", and the
    columns are those that the agent manager reads and writes. *)
Module Agent.
Record t : Type := {
  id : string;
  name : string;
  model_id : string;
  agent_type : AgentType.t;
  status : AgentStatus.t;
  config : option config_dict;
}.
End Agent.

Definition set_agent_status (s : AgentStatus.t) (a : Agent.t) : Agent.t :=
  {| Agent.id := Agent.id a; Agent.name := Agent.name a;
     Agent.model_id := Agent.model_id a; Agent.agent_type := Agent.agent_type a;
     Agent.status := s; Agent.config := Agent.config a |}.

Definition set_agent_config (c : option config_dict) (a : Agent.t) : Agent.t :=
  {| Agent.id := Agent.id a; Agent.name := Agent.name a;
     Agent.model_id := Agent.model_id a; Agent.agent_type := Agent.agent_type a;
     Agent.status := Agent.status a; Agent.config := c |}.

(** [ChatMessage], and the dictionary that [message.dict()] gives. *)
Record ChatMessage : Type := {
  role : string;
  content : string;
  timestamp : option Z;
}.

(** An entry of [active_conversations]. *)
Record Conversation : Type := {
  messages : list ChatMessage;
  last_updated : Z;
}.

(** What [load_fine_tuned_model] and [load_rag_model] return. *)
Record ModelInfo : Type := {
  info_model_id : string;
  info_model_type : string;
  loaded_at : Z;
}.

(** Agent objects are shared between the registry and its callers: the
    registry holds a reference. *)
Abbreviation ref := nat.

(** An entry of [deployed_agents]. *)
Record AgentRuntime : Type := {
  runtime_agent : ref;
  model_info : ModelInfo;
  last_used : Z;
  active_conversations : gmap string Conversation;
}.

(** The state of the agent manager: the agent objects, and the module-level
    dictionary [deployed_agents]. *)
Record AgentWorld : Type := {
  objects : ref -> Agent.t;
  deployed_agents : gmap string AgentRuntime;
}.

(** Computations of the agent manager: they read and write the state, and
    return or raise. *)
Definition M (A : Type) : Type := AgentWorld -> result A * AgentWorld.

#[global] Instance M_ret : MRet M := fun A a w => (Ok a, w).

#[global] Instance M_bind : MBind M :=
  fun A B f m w =>
    match m w with
    | (Ok a, w') => f a w'
    | (Raise e, w') => (Raise e, w')
    end.

(** [try: body  except Exception as e: handler(e)] *)
Definition try_except {A} (body : M A) (handler : exn -> M A) : M A :=
  fun w =>
    match body w with
    | (Ok a, w') => (Ok a, w')
    | (Raise e, w') => handler e w'
    end.

Definition lift {A} (r : result A) : M A := fun w => (r, w).

Definition get_world : M AgentWorld := fun w => (Ok w, w).

(** [agent.status = s] *)
Definition assign_status (agent : ref) (s : AgentStatus.t) : M unit :=
  fun w =>
    (Ok tt,
     {| objects := <[agent := set_agent_status s (objects w agent)]> (objects w);
        deployed_agents := deployed_agents w |}).

(** [agent.config = c], the effect of an update in place. *)
Definition assign_config (agent : ref) (c : option config_dict) : M unit :=
  fun w =>
    (Ok tt,
     {| objects := <[agent := set_agent_config c (objects w agent)]> (objects w);
        deployed_agents := deployed_agents w |}).

Definition set_registry (reg : gmap string AgentRuntime) : M unit :=
  fun w => (Ok tt, {| objects := objects w; deployed_agents := reg |}).

(** [load_fine_tuned_model] and [load_rag_model]: placeholders.  [now] is
    what [datetime.utcnow()] reads during the call. *)
Definition load_fine_tuned_model (now : Z) (model_id : string) : M ModelInfo :=
  mret {| info_model_id := model_id; info_model_type := "fine_tuned"; loaded_at := now |}.

Definition load_rag_model (now : Z) (model_id : string) : M ModelInfo :=
  mret {| info_model_id := model_id; info_model_type := "rag"; loaded_at := now |}.

(** The [try] block of [deploy_agent].  The final [else] of the source
    ("Unknown agent type") is taken by no member of [AgentType]. *)
Definition deploy_agent_body (settings : PyObject) (now : Z) (agent : ref) : M bool :=
  w ← get_world;
  if decide (is_Some (deployed_agents w !! Agent.id (objects w agent))) then mret true
  else
    limit ← lift (settings "MAX_DEPLOYED_AGENTS");
    full ← lift (int_ge (Z.of_nat (size (deployed_agents w))) limit);
    if (full : bool) then
      _ ← lift (settings "MAX_DEPLOYED_AGENTS");
      mret false
    else
      _ ← assign_status agent AgentStatus.DEPLOYING;
      model_info ←
        match Agent.agent_type (objects w agent) with
        | AgentType.FINE_TUNED =>
            load_fine_tuned_model now (Agent.model_id (objects w agent))
        | AgentType.RAG => load_rag_model now (Agent.model_id (objects w agent))
        end;
      _ ← set_registry
            (<[Agent.id (objects w agent) :=
                 {| runtime_agent := agent; model_info := model_info;
                    last_used := now; active_conversations := ∅ |}]>
               (deployed_agents w));
      _ ← assign_status agent AgentStatus.DEPLOYED;
      mret true.

(** [deploy_agent] *)
Definition deploy_agent (settings : PyObject) (now : Z) (agent : ref) : M bool :=
  try_except (deploy_agent_body settings now agent)
    (fun e => _ ← assign_status agent AgentStatus.FAILED; mret false).

(** [stop_agent] *)
Definition stop_agent (agent_id : string) : M bool :=
  try_except
    (w ← get_world;
     match deployed_agents w !! agent_id with
     | None => mret true
     | Some agent_runtime =>
         let agent := runtime_agent agent_runtime in
         _ ← assign_status agent AgentStatus.STOPPED;
         w ← get_world;
         _ ← set_registry (delete agent_id (deployed_agents w));
         mret true
     end)
    (fun e => mret false).

(** [for x in xs: body(x)] *)
Fixpoint for_each {A} (xs : list A) (body : A -> M unit) : M unit :=
  match xs with
  | [] => mret tt
  | x :: xs' => _ ← body x; for_each xs' body
  end.

(** [list(deployed_agents.keys())] *)
Definition registry_keys (w : AgentWorld) : list string :=
  (map_to_list (deployed_agents w)).*1.

(** [stop_all_agents] *)
Definition stop_all_agents : M unit :=
  w ← get_world;
  for_each (registry_keys w) (fun agent_id => _ ← stop_agent agent_id; mret tt).

(** [get_agent_status] *)
Definition get_agent_status (agent_id : string) : M (option AgentStatus.t) :=
  w ← get_world;
  match deployed_agents w !! agent_id with
  | Some agent_runtime => mret (Some (Agent.status (objects w (runtime_agent agent_runtime))))
  | None => mret None
  end.

Definition set_last_used (t : Z) (r : AgentRuntime) : AgentRuntime :=
  {| runtime_agent := runtime_agent r; model_info := model_info r;
     last_used := t; active_conversations := active_conversations r |}.

Definition set_conversation (conversation_id : string) (c : Conversation)
  (r : AgentRuntime) : AgentRuntime :=
  {| runtime_agent := runtime_agent r; model_info := model_info r;
     last_used := last_used r;
     active_conversations := <[conversation_id := c]> (active_conversations r) |}.

(** [update_agent_last_used] *)
Definition update_agent_last_used (now : Z) (agent_id : string) : M unit :=
  w ← get_world;
  match deployed_agents w !! agent_id with
  | Some agent_runtime =>
      set_registry (<[agent_id := set_last_used now agent_runtime]> (deployed_agents w))
  | None => mret tt
  end.

(** [create_conversation]; [uuid] is what [uuid.uuid4()] draws.  The
    [Conversation] row built at the end is not stored anywhere. *)
Definition create_conversation (now : Z) (uuid : string) (agent_id user_id : string)
  (system_message : option string) : M (option string) :=
  try_except
    (w ← get_world;
     match deployed_agents w !! agent_id with
     | None => mret None
     | Some agent_runtime =>
         let conversation_id := uuid in
         let messages :=
           match system_message with
           | Some m =>
               if decide (m = "") then []
               else [{| role := "system"; content := m; timestamp := Some now |}]
           | None => []
           end in
         _ ← set_registry
               (<[agent_id :=
                    set_conversation conversation_id
                      {| messages := messages; last_updated := now |} agent_runtime]>
                  (deployed_agents w));
         mret (Some conversation_id)
     end)
    (fun e => mret None).

(** [get_conversation] *)
Definition get_conversation (agent_id conversation_id : string)
  : M (option Conversation) :=
  try_except
    (w ← get_world;
     match deployed_agents w !! agent_id with
     | None => mret None
     | Some agent_runtime => mret (active_conversations agent_runtime !! conversation_id)
     end)
    (fun e => mret None).

(** [add_message_to_conversation] *)
Definition add_message_to_conversation (now : Z) (agent_id conversation_id : string)
  (message : ChatMessage) : M bool :=
  try_except
    (w ← get_world;
     match deployed_agents w !! agent_id with
     | None => mret false
     | Some agent_runtime =>
         match active_conversations agent_runtime !! conversation_id with
         | None => mret false
         | Some conversation =>
             _ ← set_registry
                   (<[agent_id :=
                        set_conversation conversation_id
                          {| messages := messages conversation ++ [message];
                             last_updated := now |} agent_runtime]>
                      (deployed_agents w));
             _ ← update_agent_last_used now agent_id;
             mret true
         end
     end)
    (fun e => mret false).

(** [config = agent.config or {}] followed by [config.update(extra)] when
    [extra] is truthy: a non-empty [agent.config] is updated in place, an
    empty or missing one is replaced by a fresh dictionary that is dropped. *)
Definition merge_into_agent_config (agent : ref) (extra : option config_dict) : M unit :=
  w ← get_world;
  match Agent.config (objects w agent), extra with
  | Some (kv :: config), Some (kv' :: extra') =>
      assign_config agent (Some (dict_update (kv :: config) (kv' :: extra')))
  | _, _ => mret tt
  end.

(** [generate_response] *)
Definition generate_response (now : Z) (agent_id conversation_id : string)
  (generation_config : option config_dict) : M (option ChatMessage) :=
  try_except
    (w ← get_world;
     match deployed_agents w !! agent_id with
     | None => mret None
     | Some agent_runtime =>
         match active_conversations agent_runtime !! conversation_id with
         | None => mret None
         | Some conversation =>
             let agent := runtime_agent agent_runtime in
             _ ← merge_into_agent_config agent generation_config;
             let response_content :=
               "This is a placeholder response from agent "
                 +:+ Agent.name (objects w agent)
                 +:+ " (ID: " +:+ Agent.id (objects w agent) +:+ ")" in
             let response :=
               {| role := "assistant"; content := response_content;
                  timestamp := Some now |} in
             _ ← add_message_to_conversation now agent_id conversation_id response;
             _ ← update_agent_last_used now agent_id;
             mret (Some response)
         end
     end)
    (fun e => mret None).

(** [RetrievedContext], also the shape of the context dictionaries that the
    agent manager builds. *)
Record RetrievedContext : Type := {
  context_text : string;
  context_document_id : string;
  context_document_name : string;
  context_chunk_id : string;
  context_score : float;
  context_page_numbers : option (list Z);
}.

(** The dictionary [{key: value}] when [value] is truthy, for [config.update]. *)
Definition keyed (key : string) (value : option config_dict) : option config_dict :=
  match value with
  | Some (kv :: d) => Some [(key, ConfigDict (kv :: d))]
  | _ => None
  end.

(** [generate_rag_response]; [uuid1] and [uuid2] are what the two calls of
    [uuid.uuid4()] draw. *)
Definition generate_rag_response (now : Z) (uuid1 uuid2 : string)
  (agent_id conversation_id : string)
  (retrieval_config generation_config : option config_dict)
  : M (option (ChatMessage * list RetrievedContext)) :=
  try_except
    (w ← get_world;
     match deployed_agents w !! agent_id with
     | None => mret None
     | Some agent_runtime =>
         match active_conversations agent_runtime !! conversation_id with
         | None => mret None
         | Some conversation =>
             let agent := runtime_agent agent_runtime in
             match Agent.agent_type (objects w agent) with
             | AgentType.FINE_TUNED => mret None
             | AgentType.RAG =>
                 _ ← merge_into_agent_config agent (keyed "retrieval" retrieval_config);
                 _ ← merge_into_agent_config agent (keyed "generation" generation_config);
                 let response_content :=
                   "This is a placeholder RAG response from agent "
                     +:+ Agent.name (objects w agent)
                     +:+ " (ID: " +:+ Agent.id (objects w agent) +:+ ")" in
                 let response :=
                   {| role := "assistant"; content := response_content;
                      timestamp := Some now |} in
                 _ ← add_message_to_conversation now agent_id conversation_id response;
                 _ ← update_agent_last_used now agent_id;
                 let contexts :=
                   [{| context_text := "This is a placeholder retrieved context.";
                       context_document_id := uuid1;
                       context_document_name := "Sample Document";
                       context_chunk_id := uuid2;
                       context_score := 0.95%float;
                       context_page_numbers := Some [1] |}] in
                 mret (Some (response, contexts))
             end
         end
     end)
    (fun e => mret None).

(** [(now - last_used).total_seconds() > timeout_seconds], with times counted
    in microseconds: an integer timeout compares, anything else raises
    [TypeError]. *)
Definition inactive_longer_than (elapsed : Z) (timeout_seconds : attr_value)
  : result bool :=
  match timeout_seconds with
  | AttrInt z => Ok (z * 1000000 <? elapsed)
  | _ => Raise TypeError
  end.

(** [cleanup_inactive_agents] *)
Definition cleanup_inactive_agents (settings : PyObject) (now : Z) : M unit :=
  try_except
    (timeout_seconds ← lift (settings "AGENT_TIMEOUT_SECONDS");
     w ← get_world;
     for_each (registry_keys w)
       (fun agent_id =>
          w ← get_world;
          match deployed_agents w !! agent_id with
          | None => lift (Raise (KeyError agent_id))
          | Some agent_runtime =>
              inactive ← lift (inactive_longer_than (now - last_used agent_runtime)
                                 timeout_seconds);
              if (inactive : bool) then _ ← stop_agent agent_id; mret tt else mret tt
          end))
    (fun e => mret tt).

(** The calls that reach the agent manager, and a caller's own write to an
    agent object. *)
Inductive call : Type :=
  | CallDeploy (now : Z) (agent : ref)
  | CallStop (agent_id : string)
  | CallStopAll
  | CallGetStatus (agent_id : string)
  | CallUpdateLastUsed (now : Z) (agent_id : string)
  | CallCreateConversation (now : Z) (uuid agent_id user_id : string)
      (system_message : option string)
  | CallGetConversation (agent_id conversation_id : string)
  | CallAddMessage (now : Z) (agent_id conversation_id : string) (message : ChatMessage)
  | CallGenerateResponse (now : Z) (agent_id conversation_id : string)
      (generation_config : option config_dict)
  | CallGenerateRagResponse (now : Z) (uuid1 uuid2 agent_id conversation_id : string)
      (retrieval_config generation_config : option config_dict)
  | CallCleanup (now : Z)
  | CallerWrites (agent : ref) (value : Agent.t).

(** The state after a call. *)
Definition run_call (settings : PyObject) (c : call) (w : AgentWorld) : AgentWorld :=
  match c with
  | CallDeploy now agent => (deploy_agent settings now agent w).2
  | CallStop agent_id => (stop_agent agent_id w).2
  | CallStopAll => (stop_all_agents w).2
  | CallGetStatus agent_id => (get_agent_status agent_id w).2
  | CallUpdateLastUsed now agent_id => (update_agent_last_used now agent_id w).2
  | CallCreateConversation now uuid agent_id user_id system_message =>
      (create_conversation now uuid agent_id user_id system_message w).2
  | CallGetConversation agent_id conversation_id =>
      (get_conversation agent_id conversation_id w).2
  | CallAddMessage now agent_id conversation_id message =>
      (add_message_to_conversation now agent_id conversation_id message w).2
  | CallGenerateResponse now agent_id conversation_id generation_config =>
      (generate_response now agent_id conversation_id generation_config w).2
  | CallGenerateRagResponse now uuid1 uuid2 agent_id conversation_id rc gc =>
      (generate_rag_response now uuid1 uuid2 agent_id conversation_id rc gc w).2
  | CallCleanup now => (cleanup_inactive_agents settings now w).2
  | CallerWrites agent value =>
      {| objects := <[agent := value]> (objects w); deployed_agents := deployed_agents w |}
  end.

(** The states that the service can be in: the module is loaded with an empty
    registry, and then calls arrive. *)
Inductive reachable (settings : PyObject) : AgentWorld -> Prop :=
  | reachable_start (objs : ref -> Agent.t) :
      reachable settings {| objects := objs; deployed_agents := ∅ |}
  | reachable_call (w : AgentWorld) (c : call) :
      reachable settings w -> reachable settings (run_call settings c w).

(** The state in which [agent] has been marked with [status]. *)
Definition marked (status : AgentStatus.t) (agent : ref) (w : AgentWorld) : AgentWorld :=
  {| objects := <[agent := set_agent_status status (objects w agent)]> (objects w);
     deployed_agents := deployed_agents w |}.

(** A sample settings object and a sample registry: one RAG agent, deployed
    at time 0, with one conversation. *)
Definition sample_settings : Settings :=
  {| app_name := "LLM Training Platform"; version := "1.0.0";
     description := "demo"; environment := "development";
     agent := {| max_deployed_agents := 5; agent_timeout_seconds := 30;
                 default_temperature := 0.7%float; default_top_k := 50;
                 default_top_p := 0.95%float |} |}.

Definition sample_agent : Agent.t :=
  {| Agent.id := "agent-1"; Agent.name := "helper"; Agent.model_id := "model-1";
     Agent.agent_type := AgentType.RAG; Agent.status := AgentStatus.DEPLOYED;
     Agent.config := Some [("temperature", ConfigAtom (PyInt 1))] |}.

Definition sample_runtime (history : list ChatMessage) : AgentRuntime :=
  {| runtime_agent := 0%nat;
     model_info := {| info_model_id := "model-1"; info_model_type := "rag";
                      loaded_at := 0 |};
     last_used := 0;
     active_conversations :=
       {["conv-1" := {| messages := history; last_updated := 0 |}]} |}.

Definition sample_agent_world (history : list ChatMessage) : AgentWorld :=
  {| objects := fun _ => sample_agent;
     deployed_agents := {["agent-1" := sample_runtime history]} |}.

(** A settings object that does expose [AGENT_TIMEOUT_SECONDS] and
    [MAX_DEPLOYED_AGENTS] at the top level, for comparison. *)
Definition flat_settings_object (s : Settings) : PyObject :=
  fun name =>
    if decide (name = "MAX_DEPLOYED_AGENTS") then Ok (AttrInt (max_deployed_agents (agent s)))
    else if decide (name = "AGENT_TIMEOUT_SECONDS")
         then Ok (AttrInt (agent_timeout_seconds (agent s)))
    else settings_object s name.


(** ** [rag_service.py]: retrieval followed by generation *)

#[global] Instance result_ret : MRet result := fun A a => Ok a.

#[global] Instance result_bind : MBind result :=
  fun A B f r =>
    match r with
    | Ok a => f a
    | Raise e => Raise e
    end.

(** The row of a RAG model, as [rag_model.to_dict()] gives it. *)
Record RAGConfig : Type := {
  rag_dataset_id : string;
  rag_embedding_model : string;
  rag_retrieval_config : gmap string pyval;
  rag_generation_config : gmap string pyval;
}.

(** The tables that the RAG service reads. *)
Record RagDatabase : Type := {
  rag_models : gmap string Model;
  rag_configs : gmap string RAGConfig;
}.

(** [ModelRegistry.get_rag_model]: the model row joined with its RAG
    configuration, for a model of type [RAG]. *)
Definition get_rag_model (db : RagDatabase) (model_id : string)
  : option (Model * RAGConfig) :=
  match rag_models db !! model_id with
  | Some model =>
      match model_type model with
      | ModelType.RAG =>
          match rag_configs db !! model_id with
          | Some rag_model => Some (model, rag_model)
          | None => None
          end
      | ModelType.FINE_TUNED => None
      end
  | None => None
  end.

(** A chunk, as the vector store returns it. *)
Module Chunk.
Record t : Type := {
  id : string;
  document_id : string;
  text : string;
  score : float;
  page_numbers : option (list Z);
}.
End Chunk.

Definition newline_string : string := String (ascii_of_nat 10) EmptyString.

Section RAGService.

(** What the service is given and does not define: the vector store's
    [search], by query, dataset, embedding model, [top_k] and similarity
    threshold; the dataset service's [get_document], by the name of the
    document found; and the formatting of a float with two decimals. *)
Variable vector_store_search :
  string -> string -> string -> pyval -> pyval -> result (list Chunk.t).
Variable get_document : string -> option string.
Variable format_2f : float -> string.

Variable db : RagDatabase.

(** [{**model_config, **(config or {})}] *)
Definition merge_config (model_config : gmap string pyval)
  (config : option (gmap string pyval)) : gmap string pyval :=
  default ∅ config ∪ model_config.

(** The context built from one chunk. *)
Definition context_of_chunk (chunk : Chunk.t) : RetrievedContext :=
  {| context_text := Chunk.text chunk;
     context_document_id := Chunk.document_id chunk;
     context_document_name :=
       match get_document (Chunk.document_id chunk) with
       | Some name => name
       | None => "Unknown"
       end;
     context_chunk_id := Chunk.id chunk;
     context_score := Chunk.score chunk;
     context_page_numbers := Chunk.page_numbers chunk |}.

(** [RAGService.retrieve] *)
Definition retrieve (model_id query : string)
  (retrieval_config : option (gmap string pyval)) : result (list RetrievedContext) :=
  match get_rag_model db model_id with
  | None => Raise (ValueError ("RAG model not found: " +:+ model_id))
  | Some (model, rag_config) =>
      let dataset_id := rag_dataset_id rag_config in
      let embedding_model := rag_embedding_model rag_config in
      let effective_retrieval_config :=
        merge_config (rag_retrieval_config rag_config) retrieval_config in
      let top_k := default (PyInt 5) (effective_retrieval_config !! "top_k") in
      let similarity_threshold :=
        default (PyFloat 0.7) (effective_retrieval_config !! "similarity_threshold") in
      similar_chunks ←
        vector_store_search query dataset_id embedding_model top_k similarity_threshold;
      mret (map context_of_chunk similar_chunks)
  end.

(** [for i, context in enumerate(contexts)] appending one line each; [line]
    gets the number [i] and the context. *)
Fixpoint enumerate_lines (line : nat -> RetrievedContext -> string) (i : nat)
  (contexts : list RetrievedContext) : string :=
  match contexts with
  | [] => ""
  | context :: contexts' => line i context +:+ enumerate_lines line (S i) contexts'
  end.

(** [RAGService._prepare_rag_prompt] *)
Definition _prepare_rag_prompt (query : string) (contexts : list RetrievedContext)
  : string :=
  "You are an AI assistant that answers questions based on the provided context."
    +:+ newline_string +:+ newline_string
    +:+ "Context information:" +:+ newline_string
    +:+ enumerate_lines
          (fun i context =>
             "[" +:+ pretty (i + 1)%nat +:+ "] " +:+ context_text context
               +:+ newline_string +:+ newline_string)
          0 contexts
    +:+ "Question: " +:+ query +:+ newline_string +:+ newline_string
    +:+ "Answer the question based on the context provided. If the answer cannot be determined from the context, say so.".

(** The fixed opening of a generated response. *)
Definition response_header (query : string) : string :=
  "This is a simulated RAG response for the query: " +:+ query
    +:+ newline_string +:+ newline_string
    +:+ "Based on the retrieved contexts:" +:+ newline_string.

(** [RAGService.generate]: the base model and the prompt are read and
    prepared, and then not used. *)
Definition generate (model_id query : string) (contexts : list RetrievedContext)
  (generation_config : option (gmap string pyval)) : result string :=
  match get_rag_model db model_id with
  | None => Raise (ValueError ("RAG model not found: " +:+ model_id))
  | Some (model, rag_config) =>
      let base_model := model_base_model model in
      let effective_generation_config :=
        merge_config (rag_generation_config rag_config) generation_config in
      let prompt := _prepare_rag_prompt query contexts in
      let response := response_header query in
      mret (response
              +:+ enumerate_lines
                    (fun i context =>
                       "- Context " +:+ pretty (i + 1)%nat +:+ " (score: "
                         +:+ format_2f (context_score context) +:+ "): "
                         +:+ substring 0 100 (context_text context) +:+ "..."
                         +:+ newline_string)
                    0 contexts)
  end.

(** [RAGService.query] *)
Definition query (model_id query_text : string)
  (retrieval_config generation_config : option (gmap string pyval))
  : result (string * list RetrievedContext) :=
  contexts ← retrieve model_id query_text retrieval_config;
  response ← generate model_id query_text contexts generation_config;
  mret (response, contexts).

End RAGService.

(** A sample RAG model, and vector stores that answer every search with a
    given list of chunks. *)
Definition sample_rag_db : RagDatabase :=
  {| rag_models :=
       {["rag-1" := {| model_name := "kb"; model_base_model := "base";
                       model_type := ModelType.RAG;
                       model_status := ModelStatus.READY |}]};
     rag_configs :=
       {["rag-1" := {| rag_dataset_id := "dataset-1"; rag_embedding_model := "embedder";
                       rag_retrieval_config := ∅; rag_generation_config := ∅ |}]} |}.

Definition constant_store (chunks : list Chunk.t)
  : string -> string -> string -> pyval -> pyval -> result (list Chunk.t) :=
  fun _ _ _ _ _ => Ok chunks.

Definition sample_chunk : Chunk.t :=
  {| Chunk.id := "chunk-1"; Chunk.document_id := "doc-1"; Chunk.text := "alpha";
     Chunk.score := 0.5%float; Chunk.page_numbers := None |}.


(** ** [chunking_service.py]: the Arabic sentence splitter *)

(** [r'(?<=\.|\?|!|؟|!) ']: a space that follows a full stop, a question mark
    (Latin or Arabic, U+061F) or an exclamation mark. *)
Definition arabic_sentence_boundary_re : pattern :=
  fun before s =>
    match before, s with
    | b1 :: _, c :: _ =>
        if ((b1 =? dot) || (b1 =? chr "?") || (b1 =? chr "!") || (b1 =? 1567))%N
           && (c =? 32)%N
        then Some 1%nat else None
    | _, _ => None
    end.

(** [ArabicChunkingService._split_into_sentences] *)
Definition arabic_split_into_sentences (text : pystr) : list pystr :=
  let sentences := re_split arabic_sentence_boundary_re text in
  filter (fun s => truthy (strip s) = true) sentences.

(** The slices [text[i : i + chunk_size]] at the chunk starts, before the
    blank ones are dropped. *)
Definition fixed_size_slices (text : pystr) (chunk_size step : Z) : list pystr :=
  map (fun i => slice text i (i + chunk_size)) (chunk_starts text step).

(** The invariant of both loops: the chunks so far are not blank, and the
    current chunk is empty or not blank. *)
Definition loop_invariant (st : list pystr * pystr) : Prop :=
  Forall nonblank st.1 /\ (st.2 = [] \/ nonblank st.2).

(** What [agent.config] holds after [config = agent.config or {}] and
    [config.update(extra)]. *)
Definition config_after_merge (config extra : option config_dict) : option config_dict :=
  match config, extra with
  | Some (kv :: d), Some (kv' :: d') => Some (dict_update (kv :: d) (kv' :: d'))
  | _, _ => config
  end.

(** Between two states, every agent object is as it was or has been marked
    [STOPPED]. *)
Definition only_stopped (w w' : AgentWorld) : Prop :=
  forall agent,
    objects w' agent = objects w agent
    \/ objects w' agent = set_agent_status AgentStatus.STOPPED (objects w agent).

(** [(now - last_used).total_seconds() > timeout] for an integer timeout, in
    microseconds. *)
Definition inactive (now timeout : Z) (runtime : AgentRuntime) : bool :=
  timeout * 1000000 <? now - last_used runtime.


(** The value that [retrieve] passes on for a key of the retrieval
    configuration: the request's, else the model's, else the default. *)
Definition effective_setting (key : string) (fallback : pyval)
  (model_config : gmap string pyval) (config : option (gmap string pyval)) : pyval :=
  match config with
  | Some request =>
      match request !! key with
      | Some v => v
      | None => default fallback (model_config !! key)
      end
  | None => default fallback (model_config !! key)
  end.

(** A chunk is within bounds when it is one piece alone, or no longer than
    [chunk_size] plus the separator. *)
Definition within_bound (pieces : list pystr) (chunk_size separator : Z) (c : pystr)
  : Prop :=
  c ∈ pieces \/ len c <= chunk_size + separator.

(** ** [settings.py]: the validator of the OCR languages *)

(** [s.split(sep)] for a separator of one character. *)
Fixpoint split_on (sep : char) (s : pystr) : list pystr :=
  match s with
  | [] => [[]]
  | c :: s' =>
      if (c =? sep)%N then [] :: split_on sep s'
      else
        match split_on sep s' with
        | piece :: rest => (c :: piece) :: rest
        | [] => [[c]]
        end
  end.

Definition comma : char := chr ",".

(** What the validator is given: the text of an environment variable, or a
    list already. *)
Inductive languages_value : Type :=
  | LanguagesText (v : pystr)
  | LanguagesList (v : list pystr).

(** [OCRSettings.parse_languages] *)
Definition parse_languages (v : languages_value) : list pystr :=
  match v with
  | LanguagesText v => map strip (split_on comma v)
  | LanguagesList v => v
  end.


(** * Properties *)

(** ** Sequences, slices and whitespace *)

Lemma truthy_true {A} (s : list A) : truthy s = true <-> s <> [].
Proof. destruct s; simpl; split; congruence. Qed.

Lemma truthy_rev {A} (s : list A) : truthy (rev s) = truthy s.
Proof.
  destruct s as [|a s]; [reflexivity|]. simpl.
  destruct (rev s ++ [a]) eqn:E; [|reflexivity].
  apply app_eq_nil in E as [_ E]. discriminate.
Qed.

Lemma truthy_drop_while {A} (p : A -> bool) (s : list A) :
  truthy (drop_while p s) = true <-> exists c, c ∈ s /\ p c = false.
Proof.
  induction s as [|a s IH]; simpl.
  - split; [discriminate|]. intros (c & Hc & _). inversion Hc.
  - destruct (p a) eqn:Ea; simpl.
    + rewrite IH. split; intros (c & Hc & Hp).
      * exists c. split; [by right|done].
      * inversion Hc; subst; [congruence|]. by exists c.
    + split; [|done]. intros _. exists a. split; [by left|done].
Qed.

Lemma elem_of_drop_while {A} (p : A -> bool) (s : list A) c :
  c ∈ drop_while p s -> c ∈ s.
Proof.
  induction s as [|a s IH]; simpl; [done|].
  destruct (p a); [|done]. intros H. right. by apply IH.
Qed.

Lemma drop_while_keeps {A} (p : A -> bool) (s : list A) c :
  c ∈ s -> p c = false -> exists d, d ∈ drop_while p s /\ p d = false.
Proof.
  induction s as [|a s IH]; simpl; intros Hc Hp; [inversion Hc|].
  destruct (p a) eqn:Ea.
  - inversion Hc; subst; [congruence|]. by apply IH.
  - exists a. split; [by left|done].
Qed.

(** [s.strip()] is truthy exactly when [s] holds a character that is not
    whitespace. *)
Lemma strip_truthy (s : pystr) :
  truthy (strip s) = true <-> exists c, c ∈ s /\ isspace c = false.
Proof.
  unfold strip, rstrip, lstrip. rewrite truthy_rev, truthy_drop_while. split.
  - intros (c & Hc & Hp). exists c. split; [|done].
    rewrite list_elem_of_In, <- in_rev, <- list_elem_of_In in Hc.
    by apply elem_of_drop_while in Hc.
  - intros (c & Hc & Hp).
    destruct (drop_while_keeps isspace s c Hc Hp) as (d & Hd & Hpd).
    exists d. split; [|done]. by rewrite list_elem_of_In, <- in_rev, <- list_elem_of_In.
Qed.

Lemma slice_is_slice_of (t : pystr) (lo hi : Z) : is_slice_of (slice t lo hi) t.
Proof.
  unfold slice. cbv zeta.
  generalize (Z.to_nat (clamp_index (len t) hi - clamp_index (len t) lo)) as m.
  generalize (Z.to_nat (clamp_index (len t) lo)) as n. intros n m.
  exists (take n t), (drop m (drop n t)).
  rewrite !take_drop. reflexivity.
Qed.

Lemma startswith_spec (s t : pystr) : startswith s t = true <-> exists post, s = t ++ post.
Proof.
  revert s. induction t as [|d t IH]; intros s; simpl.
  - split; [|by destruct s]. intros _. by exists s.
  - destruct s as [|c s]; simpl.
    + split; [discriminate|]. intros (post & H). discriminate.
    + rewrite andb_true_iff, N.eqb_eq, IH. split.
      * intros (-> & post & ->). by exists post.
      * intros (post & H). injection H as -> ->. split; [done|by exists post].
Qed.

(** [contains] decides [is_slice_of]. *)
Lemma contains_spec (t c : pystr) : contains t c = true <-> is_slice_of c t.
Proof.
  unfold is_slice_of. induction t as [|a t IH].
  - cbn [contains]. rewrite orb_false_r, startswith_spec. split.
    + intros (post & ->). by exists [], post.
    + intros (pre & post & H). destruct pre; [|discriminate]. by exists post.
  - cbn [contains]. rewrite orb_true_iff, startswith_spec, IH. split.
    + intros [(post & ->)|(pre & post & ->)]; [by exists [], post|by exists (a :: pre), post].
    + intros (pre & post & H). destruct pre as [|b pre].
      * left. by exists post.
      * right. injection H as -> ->. by exists pre, post.
Qed.

(** ** Fixed-size chunking *)

Section ChunkingFacts.

Variable unicode_isalnum : char -> bool.

(** The loop of [_chunk_by_fixed_size] keeps, in order, the slices that are
    not blank. *)
Lemma fixed_size_loop (text : pystr) (chunk_size : Z) (indices : list Z)
  (chunks : list pystr) :
  fold_left (fixed_size_step text chunk_size) indices chunks =
  chunks ++ filter (fun c => truthy (strip c) = true)
                   (map (fun i => slice text i (i + chunk_size)) indices).
Proof.
  revert chunks. induction indices as [|i indices IH]; intros chunks; simpl.
  - by rewrite app_nil_r.
  - rewrite IH. unfold fixed_size_step. rewrite filter_cons.
    destruct (truthy (strip (slice text i (i + chunk_size)))) eqn:E.
    + rewrite decide_True by done. by rewrite <- app_assoc.
    + rewrite decide_False by congruence. done.
Qed.

Lemma range_from_zero (stop step : Z) :
  0 <= stop -> 0 < step ->
  range 0 stop step =
  Ok (map (fun k : nat => Z.of_nat k * step) (seq 0 (Z.to_nat ((stop + step - 1) / step)))).
Proof.
  intros Hstop Hstep. unfold range, range_length.
  destruct (Z.eqb_spec step 0); [lia|].
  destruct (Z.ltb_spec 0 step); [|lia]. simpl. f_equal.
  destruct (Z.ltb_spec 0 stop).
  - f_equal. f_equal. f_equal.
    replace (stop + step - 1) with ((stop - 1 - 0) + 1 * step) by lia.
    rewrite Z.div_add by lia. lia.
  - destruct (Z.ltb_spec step 0); [lia|]. simpl.
    assert (stop = 0) as -> by lia.
    rewrite Z.div_small by lia. done.
Qed.

Lemma fixed_size_result (text : pystr) (chunk_size chunk_overlap : Z) :
  0 < chunk_size ->
  _chunk_by_fixed_size text chunk_size chunk_overlap =
  Ok (filter (fun c => truthy (strip c) = true)
        (map (fun i => slice text i (i + chunk_size))
             (chunk_starts text (fixed_step chunk_size chunk_overlap)))).
Proof.
  intros Hsize. unfold _chunk_by_fixed_size, chunk_starts, fixed_step. cbv zeta.
  assert ((if chunk_size - chunk_overlap <=? 0 then chunk_size
           else chunk_size - chunk_overlap) =
          (if 0 <? chunk_size - chunk_overlap then chunk_size - chunk_overlap
           else chunk_size)) as ->.
  { destruct (Z.leb_spec (chunk_size - chunk_overlap) 0),
      (Z.ltb_spec 0 (chunk_size - chunk_overlap)); lia. }
  rewrite range_from_zero; [|unfold len; lia|destruct (Z.ltb_spec 0 (chunk_size - chunk_overlap)); lia].
  by rewrite fixed_size_loop.
Qed.

Lemma slice_length_bound (text : pystr) (i n : Z) :
  0 <= i -> 0 <= n -> len (slice text i (i + n)) <= n.
Proof.
  intros Hi Hn. unfold slice, len, clamp_index. cbv zeta.
  rewrite length_take, length_drop.
  destruct (Z.ltb_spec i 0), (Z.ltb_spec (i + n) 0); lia.
Qed.

Lemma elem_of_fixed_size_chunks (text : pystr) (chunk_size : Z) (indices : list Z)
  (c : pystr) :
  c ∈ filter (fun c => truthy (strip c) = true)
        (map (fun i => slice text i (i + chunk_size)) indices) ->
  truthy (strip c) = true /\ exists i, i ∈ indices /\ c = slice text i (i + chunk_size).
Proof.
  rewrite list_elem_of_filter, list_elem_of_In, in_map_iff.
  intros (Hc & i & <- & Hi). split; [done|].
  exists i. by rewrite list_elem_of_In.
Qed.

Lemma chunk_starts_nonneg (text : pystr) (step i : Z) :
  0 < step -> i ∈ chunk_starts text step -> 0 <= i.
Proof.
  intros Hstep. unfold chunk_starts. rewrite list_elem_of_In, in_map_iff.
  intros (k & <- & _). lia.
Qed.

(** C9.  With a positive [chunk_size], fixed-size chunking returns, whatever
    the overlap: the step is [chunk_size - chunk_overlap] when that is
    positive and [chunk_size] otherwise; the chunks are the slices
    [text[i : i + chunk_size]] at [i = 0, step, 2*step, ...], without the
    blank ones; every chunk is at most [chunk_size] long and holds a
    character that is not whitespace.  On the empty text every strategy
    returns the empty list. *)
Theorem chunk_text_fixed_size_total (text : pystr) (chunk_size chunk_overlap : Z) :
  0 < chunk_size ->
  let step := fixed_step chunk_size chunk_overlap in
  let chunks :=
    filter nonblank
      (map (fun i => slice text i (i + chunk_size)) (chunk_starts text step)) in
  chunk_text unicode_isalnum text chunk_size chunk_overlap FIXED_SIZE = Ok chunks
  /\ (chunk_overlap < chunk_size -> step = chunk_size - chunk_overlap)
  /\ (chunk_size <= chunk_overlap -> step = chunk_size)
  /\ (forall c, c ∈ chunks ->
        len c <= chunk_size /\ exists ch, ch ∈ c /\ isspace ch = false)
  /\ (forall strategy size overlap,
        chunk_text unicode_isalnum [] size overlap strategy = Ok []).
Proof.
  intros Hsize step chunks.
  assert (0 < step) as Hstep.
  { unfold step, fixed_step. destruct (Z.ltb_spec 0 (chunk_size - chunk_overlap)); lia. }
  split; [|split; [|split; [|split]]].
  - unfold chunk_text. destruct text as [|c text]; simpl negb; cbv iota.
    + subst chunks. unfold chunk_starts, len. simpl length.
      replace (Z.of_nat 0 + step - 1) with (step - 1) by lia.
      by rewrite Z.div_small by lia.
    + by rewrite fixed_size_result.
  - intros H. unfold step, fixed_step.
    destruct (Z.ltb_spec 0 (chunk_size - chunk_overlap)); lia.
  - intros H. unfold step, fixed_step.
    destruct (Z.ltb_spec 0 (chunk_size - chunk_overlap)); lia.
  - intros c Hc. apply elem_of_fixed_size_chunks in Hc as (Hblank & i & Hi & ->).
    split.
    + apply slice_length_bound; [|lia]. by eapply chunk_starts_nonneg.
    + by apply strip_truthy.
  - intros strategy size overlap. reflexivity.
Qed.

(** C2, as the code has it.  Under the fixed-size strategy every returned
    chunk is a contiguous slice of the input text. *)
Theorem fixed_size_chunks_are_slices (text : pystr) (chunk_size chunk_overlap : Z)
  (chunks : list pystr) (c : pystr) :
  chunk_text unicode_isalnum text chunk_size chunk_overlap FIXED_SIZE = Ok chunks ->
  c ∈ chunks ->
  is_slice_of c text.
Proof.
  unfold chunk_text. destruct (negb (truthy text)).
  - intros [= <-] Hc. inversion Hc.
  - unfold _chunk_by_fixed_size. cbv zeta.
    destruct (range 0 (len text) _) as [indices|e]; [|discriminate].
    rewrite fixed_size_loop. intros [= <-] Hc. simpl in Hc.
    apply elem_of_fixed_size_chunks in Hc as (_ & i & _ & ->).
    apply slice_is_slice_of.
Qed.

(** C10.  Semantic chunking returns what sentence chunking returns. *)
Theorem semantic_is_sentence (text : pystr) (chunk_size chunk_overlap : Z) :
  chunk_text unicode_isalnum text chunk_size chunk_overlap SEMANTIC =
  chunk_text unicode_isalnum text chunk_size chunk_overlap SENTENCE.
Proof. unfold chunk_text, _chunk_by_semantic. reflexivity. Qed.

End ChunkingFacts.

Lemma chunk_text_fixed_size_total_witness :
  0 < 4 /\
  chunk_text (fun _ => false) (str "ab   cdef") 4 6 FIXED_SIZE = Ok [str "ab  "; str " cde"; str "f"].
Proof.
  split; [lia|].
  exact (proj1 (chunk_text_fixed_size_total (fun _ => false) (str "ab   cdef") 4 6 ltac:(lia))).
Defined.

Lemma fixed_size_chunks_are_slices_witness :
  is_slice_of (str "cd") (str "abcdef").
Proof.
  apply (fixed_size_chunks_are_slices (fun _ => false) (str "abcdef") 2 0
           [str "ab"; str "cd"; str "ef"] (str "cd")).
  - by vm_compute.
  - vm_compute. right. left.
Defined.

(** C2, as stated, fails for the sentence and paragraph strategies: two
    sentences separated by a newline come back joined by a space, and two
    paragraphs separated by three newlines come back joined by two. *)
Lemma rejoined_chunks_are_not_slices :
  ((forall w, chunk_text w (str "A." ++ [newline] ++ str "B.") 100 0 SENTENCE
              = Ok [str "A. B."])
   /\ ~ is_slice_of (str "A. B.") (str "A." ++ [newline] ++ str "B."))
  /\ ((forall w, chunk_text w (str "a" ++ [newline; newline; newline] ++ str "b") 100 0
                   PARAGRAPH
                 = Ok [str "a" ++ [newline; newline] ++ str "b"])
      /\ ~ is_slice_of (str "a" ++ [newline; newline] ++ str "b")
             (str "a" ++ [newline; newline; newline] ++ str "b")).
Proof.
  split; split.
  - intros w. by vm_compute.
  - intros H%contains_spec. by vm_compute in H.
  - intros w. by vm_compute.
  - intros H%contains_spec. by vm_compute in H.
Qed.

(** ** Simulated training runs *)










(** ** The registry of deployed agents *)

(** Unfolds the plumbing of [M]. *)
Ltac run_m :=
  unfold try_except, lift, get_world, set_registry, assign_status, assign_config;
  unfold mbind, M_bind, mret, M_ret; cbn beta iota.

Lemma settings_lack_max_deployed_agents (s : Settings) :
  settings_object s "MAX_DEPLOYED_AGENTS" = Raise (AttributeError "MAX_DEPLOYED_AGENTS").
Proof. reflexivity. Qed.

Lemma settings_lack_agent_timeout_seconds (s : Settings) :
  settings_object s "AGENT_TIMEOUT_SECONDS" = Raise (AttributeError "AGENT_TIMEOUT_SECONDS").
Proof. reflexivity. Qed.

Lemma deploy_new_agent_fails (s : Settings) (now : Z) (agent : ref) (w : AgentWorld) :
  deployed_agents w !! Agent.id (objects w agent) = None ->
  deploy_agent (settings_object s) now agent w =
  (Ok false, marked AgentStatus.FAILED agent w).
Proof.
  intros Hnew. unfold deploy_agent, deploy_agent_body. run_m.
  rewrite Hnew. rewrite decide_False by (intros [? ?]; discriminate).
  by rewrite settings_lack_max_deployed_agents.
Qed.

Lemma stop_agent_not_deployed (agent_id : string) (w : AgentWorld) :
  deployed_agents w !! agent_id = None -> stop_agent agent_id w = (Ok true, w).
Proof. intros H. unfold stop_agent. run_m. by rewrite H. Qed.

Lemma get_agent_status_not_deployed (agent_id : string) (w : AgentWorld) :
  deployed_agents w !! agent_id = None -> get_agent_status agent_id w = (Ok None, w).
Proof. intros H. unfold get_agent_status. run_m. by rewrite H. Qed.

Lemma update_agent_last_used_not_deployed now (agent_id : string) (w : AgentWorld) :
  deployed_agents w !! agent_id = None ->
  update_agent_last_used now agent_id w = (Ok tt, w).
Proof. intros H. unfold update_agent_last_used. run_m. by rewrite H. Qed.

Lemma create_conversation_not_deployed now uuid (agent_id user_id : string) sys
  (w : AgentWorld) :
  deployed_agents w !! agent_id = None ->
  create_conversation now uuid agent_id user_id sys w = (Ok None, w).
Proof. intros H. unfold create_conversation. run_m. by rewrite H. Qed.

Lemma get_conversation_not_deployed (agent_id conversation_id : string) (w : AgentWorld) :
  deployed_agents w !! agent_id = None ->
  get_conversation agent_id conversation_id w = (Ok None, w).
Proof. intros H. unfold get_conversation. run_m. by rewrite H. Qed.

Lemma add_message_not_deployed now (agent_id conversation_id : string) message
  (w : AgentWorld) :
  deployed_agents w !! agent_id = None ->
  add_message_to_conversation now agent_id conversation_id message w = (Ok false, w).
Proof. intros H. unfold add_message_to_conversation. run_m. by rewrite H. Qed.

Lemma generate_response_not_deployed now (agent_id conversation_id : string) config
  (w : AgentWorld) :
  deployed_agents w !! agent_id = None ->
  generate_response now agent_id conversation_id config w = (Ok None, w).
Proof. intros H. unfold generate_response. run_m. by rewrite H. Qed.

Lemma generate_rag_response_not_deployed now uuid1 uuid2 (agent_id conversation_id : string)
  rc gc (w : AgentWorld) :
  deployed_agents w !! agent_id = None ->
  generate_rag_response now uuid1 uuid2 agent_id conversation_id rc gc w = (Ok None, w).
Proof. intros H. unfold generate_rag_response. run_m. by rewrite H. Qed.

(** With the settings as declared, the clean-up raises before it looks at any
    agent, and the handler swallows the exception. *)
Lemma cleanup_changes_nothing (s : Settings) (now : Z) (w : AgentWorld) :
  cleanup_inactive_agents (settings_object s) now w = (Ok tt, w).
Proof.
  unfold cleanup_inactive_agents. run_m.
  by rewrite settings_lack_agent_timeout_seconds.
Qed.

Lemma stop_all_agents_empty (w : AgentWorld) :
  deployed_agents w = ∅ -> stop_all_agents w = (Ok tt, w).
Proof.
  intros H. unfold stop_all_agents, registry_keys. run_m.
  by rewrite H, map_to_list_empty.
Qed.

(** Every call leaves an empty registry empty. *)
Lemma run_call_keeps_empty (s : Settings) (c : call) (w : AgentWorld) :
  deployed_agents w = ∅ -> deployed_agents (run_call (settings_object s) c w) = ∅.
Proof.
  intros Hempty.
  assert (forall k : string, deployed_agents w !! k = None) as Hnone
    by (intros k; by rewrite Hempty, lookup_empty).
  destruct c; cbn [run_call].
  - by rewrite deploy_new_agent_fails.
  - by rewrite stop_agent_not_deployed.
  - by rewrite stop_all_agents_empty.
  - by rewrite get_agent_status_not_deployed.
  - by rewrite update_agent_last_used_not_deployed.
  - by rewrite create_conversation_not_deployed.
  - by rewrite get_conversation_not_deployed.
  - by rewrite add_message_not_deployed.
  - by rewrite generate_response_not_deployed.
  - by rewrite generate_rag_response_not_deployed.
  - by rewrite cleanup_changes_nothing.
  - done.
Qed.

Lemma reachable_registry_empty (s : Settings) (w : AgentWorld) :
  reachable (settings_object s) w -> deployed_agents w = ∅.
Proof.
  induction 1 as [objs|w c _ IH]; [done|]. by apply run_call_keeps_empty.
Qed.

(** C3.  The settings object has no attribute [MAX_DEPLOYED_AGENTS], so for
    an agent that is not in the registry [deploy_agent] returns [False], leaves
    the agent [FAILED] and the registry as it was; hence the registry is empty
    in every reachable state, where [create_conversation] and
    [generate_response] return [None] for every agent id. *)
Theorem deploy_agent_never_deploys (s : Settings) :
  settings_object s "MAX_DEPLOYED_AGENTS" = Raise (AttributeError "MAX_DEPLOYED_AGENTS")
  /\ (forall now agent w,
        deployed_agents w !! Agent.id (objects w agent) = None ->
        exists w',
          deploy_agent (settings_object s) now agent w = (Ok false, w')
          /\ Agent.status (objects w' agent) = AgentStatus.FAILED
          /\ deployed_agents w' = deployed_agents w)
  /\ (forall w,
        reachable (settings_object s) w ->
        deployed_agents w = ∅
        /\ (forall now uuid agent_id user_id sys,
              create_conversation now uuid agent_id user_id sys w = (Ok None, w))
        /\ (forall now agent_id conversation_id config,
              generate_response now agent_id conversation_id config w = (Ok None, w))).
Proof.
  split; [reflexivity|]. split.
  - intros now agent w Hnew. exists (marked AgentStatus.FAILED agent w).
    split; [by apply deploy_new_agent_fails|]. split; [|done].
    simpl. by rewrite fn_lookup_insert.
  - intros w Hreach. pose proof (reachable_registry_empty s w Hreach) as Hempty.
    assert (forall k : string, deployed_agents w !! k = None) as Hnone
      by (intros k; by rewrite Hempty, lookup_empty).
    split; [done|]. split; intros.
    + by apply create_conversation_not_deployed.
    + by apply generate_response_not_deployed.
Qed.

Lemma deploy_agent_never_deploys_witness :
  exists w',
    deploy_agent (settings_object sample_settings) 7 0%nat
      {| objects := fun _ => sample_agent; deployed_agents := ∅ |} = (Ok false, w')
    /\ Agent.status (objects w' 0%nat) = AgentStatus.FAILED
    /\ deployed_agents w' = ∅.
Proof.
  destruct (deploy_agent_never_deploys sample_settings) as (_ & Hdeploy & _).
  apply (Hdeploy 7 0%nat {| objects := fun _ => sample_agent; deployed_agents := ∅ |}).
  reflexivity.
Defined.

(** What [generate_response] returns for a deployed agent with the
    conversation at hand. *)
Lemma generate_response_deployed now (agent_id conversation_id : string) config
  (w : AgentWorld) runtime conversation :
  deployed_agents w !! agent_id = Some runtime ->
  active_conversations runtime !! conversation_id = Some conversation ->
  exists w',
    generate_response now agent_id conversation_id config w =
    (Ok (Some {| role := "assistant";
                 content := "This is a placeholder response from agent "
                              +:+ Agent.name (objects w (runtime_agent runtime))
                              +:+ " (ID: " +:+ Agent.id (objects w (runtime_agent runtime))
                              +:+ ")";
                 timestamp := Some now |}), w').
Proof.
  intros Hagent Hconv. unfold generate_response. run_m. rewrite Hagent, Hconv.
  unfold merge_into_agent_config, add_message_to_conversation, update_agent_last_used.
  run_m.
  destruct (Agent.config (objects w (runtime_agent runtime))) as [[|kv d]|],
    config as [[|kv' d']|]; cbn; rewrite ?Hagent, ?Hconv; cbn;
    rewrite ?lookup_insert_eq; cbn; rewrite ?lookup_insert_eq; eauto.
Qed.

(** C5.  For a deployed agent and a conversation of it, [generate_response]
    returns a message with role ["assistant"] whose content is fixed by the
    agent's name and id: two runs on states that agree on these, whatever the
    histories, the generation configurations and the clock, give responses
    with the same content. *)
Theorem generate_response_content_fixed (now1 now2 : Z) (agent_id conversation_id : string)
  (config1 config2 : option config_dict) (w1 w2 : AgentWorld)
  (runtime1 runtime2 : AgentRuntime) (conversation1 conversation2 : Conversation) :
  deployed_agents w1 !! agent_id = Some runtime1 ->
  deployed_agents w2 !! agent_id = Some runtime2 ->
  active_conversations runtime1 !! conversation_id = Some conversation1 ->
  active_conversations runtime2 !! conversation_id = Some conversation2 ->
  Agent.name (objects w1 (runtime_agent runtime1)) =
    Agent.name (objects w2 (runtime_agent runtime2)) ->
  Agent.id (objects w1 (runtime_agent runtime1)) =
    Agent.id (objects w2 (runtime_agent runtime2)) ->
  exists response1 response2 w1' w2',
    generate_response now1 agent_id conversation_id config1 w1 = (Ok (Some response1), w1')
    /\ generate_response now2 agent_id conversation_id config2 w2 = (Ok (Some response2), w2')
    /\ role response1 = "assistant" /\ role response2 = "assistant"
    /\ content response1 = content response2.
Proof.
  intros Hagent1 Hagent2 Hconv1 Hconv2 Hname Hid.
  destruct (generate_response_deployed now1 _ _ config1 _ _ _ Hagent1 Hconv1) as [w1' H1].
  destruct (generate_response_deployed now2 _ _ config2 _ _ _ Hagent2 Hconv2) as [w2' H2].
  eexists _, _, w1', w2'. split; [exact H1|]. split; [exact H2|].
  simpl. by rewrite Hname, Hid.
Qed.

Lemma generate_response_content_fixed_witness :
  exists response1 response2 w1' w2',
    generate_response 10 "agent-1" "conv-1" None (sample_agent_world []) =
      (Ok (Some response1), w1')
    /\ generate_response 20 "agent-1" "conv-1" (Some [("top_k", ConfigAtom (PyInt 3))])
         (sample_agent_world [{| role := "user"; content := "hi"; timestamp := None |}]) =
       (Ok (Some response2), w2')
    /\ role response1 = "assistant" /\ role response2 = "assistant"
    /\ content response1 = content response2.
Proof.
  apply (generate_response_content_fixed 10 20 "agent-1" "conv-1" None
           (Some [("top_k", ConfigAtom (PyInt 3))])
           (sample_agent_world [])
           (sample_agent_world [{| role := "user"; content := "hi"; timestamp := None |}])
           (sample_runtime [])
           (sample_runtime [{| role := "user"; content := "hi"; timestamp := None |}])
           {| messages := []; last_updated := 0 |}
           {| messages := [{| role := "user"; content := "hi"; timestamp := None |}];
              last_updated := 0 |});
    reflexivity.
Defined.





(** ** Retrieval and generation *)





(** C7.  [query] is retrieval followed by generation: what [retrieve] raises,
    [query] raises; and when [retrieve] returns contexts, [generate] returns a
    response for them and [query] returns the pair of both. *)
Theorem query_is_retrieve_then_generate
  (vector_store_search : string -> string -> string -> pyval -> pyval -> result (list Chunk.t))
  (get_document : string -> option string) (format_2f : float -> string)
  (db : RagDatabase) (model_id query_text : string)
  (retrieval_config generation_config : option (gmap string pyval)) :
  query vector_store_search get_document format_2f db model_id query_text
    retrieval_config generation_config =
  match retrieve vector_store_search get_document db model_id query_text retrieval_config with
  | Ok contexts =>
      match generate format_2f db model_id query_text contexts generation_config with
      | Ok response => Ok (response, contexts)
      | Raise e => Raise e
      end
  | Raise e => Raise e
  end
  /\ (forall contexts,
        retrieve vector_store_search get_document db model_id query_text retrieval_config
          = Ok contexts ->
        exists response,
          generate format_2f db model_id query_text contexts generation_config = Ok response
          /\ query vector_store_search get_document format_2f db model_id query_text
               retrieval_config generation_config = Ok (response, contexts)).
Proof.
  split.
  - unfold query, mbind, result_bind, mret, result_ret.
    destruct (retrieve _ _ _ _ _ _) as [contexts|e]; [|done].
    by destruct (generate _ _ _ _ _ _).
  - intros contexts Hretrieve. unfold query, mbind, result_bind, mret, result_ret.
    rewrite Hretrieve. unfold retrieve in Hretrieve. unfold generate.
    destruct (get_rag_model db model_id) as [[model rag_config]|]; [|discriminate].
    eexists. split; reflexivity.
Qed.




(** * Further properties of the code *)

(** ** Chunking: no blank chunks, edge sizes, tiling *)

Lemma nonblank_app_r (p s : pystr) : nonblank s -> nonblank (p ++ s).
Proof.
  unfold nonblank. rewrite !strip_truthy. intros (c & Hc & Hs).
  exists c. split; [|done]. apply elem_of_app. by right.
Qed.

Lemma truthy_nonblank (s : pystr) : nonblank s -> truthy s = true.
Proof.
  unfold nonblank. rewrite strip_truthy. intros (c & Hc & _).
  destruct s; [inversion Hc|done].
Qed.

(** Each pass of the sentence loop either keeps [chunks] or appends the
    current chunk, which is then not empty, and the new current chunk ends
    with the sentence. *)
Lemma sentence_step_shape (chunk_size chunk_overlap : Z) (chunks : list pystr)
  (current sentence : pystr) :
  exists chunks' pre,
    sentence_step chunk_size chunk_overlap (chunks, current) sentence =
      (chunks', pre ++ sentence)
    /\ (chunks' = chunks \/ (chunks' = chunks ++ [current] /\ truthy current = true)).
Proof.
  unfold sentence_step.
  destruct ((len current + len sentence >? chunk_size) && truthy current) eqn:Hflush.
  - apply andb_true_iff in Hflush as [_ Htruthy].
    destruct (chunk_overlap >? 0).
    + destruct (list.last _) as [[a b]|].
      * eexists _, _. split; [reflexivity|]. by right.
      * destruct (truthy (split_ws _)); eexists _, _;
          (split; [reflexivity|]); by right.
    + eexists _, _. split; [reflexivity|]. by right.
  - eexists _, _. split; [reflexivity|]. by left.
Qed.

Lemma paragraph_step_shape (unicode_isalnum : char -> bool) (chunk_size chunk_overlap : Z)
  (chunks : list pystr) (current paragraph : pystr) :
  exists chunks' pre,
    paragraph_step unicode_isalnum chunk_size chunk_overlap (chunks, current) paragraph =
      (chunks', pre ++ paragraph)
    /\ (chunks' = chunks \/ (chunks' = chunks ++ [current] /\ truthy current = true)).
Proof.
  unfold paragraph_step.
  destruct ((len current + len paragraph >? chunk_size) && truthy current) eqn:Hflush.
  - apply andb_true_iff in Hflush as [_ Htruthy].
    destruct (chunk_overlap >? 0).
    + destruct (list.last (finditer _ _)) as [[a b]|].
      * eexists _, _. split; [reflexivity|]. by right.
      * destruct (list.last (_split_into_sentences _ _)); eexists _, _;
          (split; [reflexivity|]); by right.
    + eexists _, _. split; [reflexivity|]. by right.
  - eexists _, _. split; [reflexivity|]. by left.
Qed.

Lemma loop_invariant_fold (step : list pystr * pystr -> pystr -> list pystr * pystr)
  (pieces : list pystr) (st : list pystr * pystr) :
  (forall chunks current piece,
     exists chunks' pre,
       step (chunks, current) piece = (chunks', pre ++ piece)
       /\ (chunks' = chunks \/ (chunks' = chunks ++ [current] /\ truthy current = true))) ->
  Forall nonblank pieces ->
  loop_invariant st ->
  loop_invariant (fold_left step pieces st).
Proof.
  intros Hstep Hpieces. revert st.
  induction Hpieces as [|piece pieces Hpiece _ IH]; intros [chunks current] Hinv; [done|].
  simpl. apply IH.
  destruct (Hstep chunks current piece) as (chunks' & pre & -> & Hchunks).
  destruct Hinv as [Hall Hcur]. simpl in *. split; simpl.
  - destruct Hchunks as [->|[-> Htruthy]]; [done|].
    apply Forall_app. split; [done|]. apply Forall_singleton.
    destruct Hcur as [->|Hnb]; [discriminate|done].
  - right. by apply nonblank_app_r.
Qed.

Lemma filter_nonblank (pieces : list pystr) :
  Forall nonblank (filter (fun s => truthy (strip s) = true) pieces).
Proof. apply Forall_forall. intros p Hp. by apply list_elem_of_filter in Hp as [Hp _]. Qed.

Lemma loop_result_nonblank (chunks : list pystr) (current : pystr) :
  loop_invariant (chunks, current) ->
  Forall nonblank (if truthy (strip current) then chunks ++ [current] else chunks).
Proof.
  intros [Hall _]. simpl in Hall.
  destruct (truthy (strip current)) eqn:E; [|done].
  apply Forall_app. split; [done|]. by apply Forall_singleton.
Qed.

(** X1.  Whatever the strategy and the sizes, a chunk that [chunk_text]
    returns holds a character that is not whitespace. *)
Theorem chunk_text_never_blank (unicode_isalnum : char -> bool) (text : pystr)
  (chunk_size chunk_overlap : Z) (strategy : ChunkStrategy) (chunks : list pystr)
  (c : pystr) :
  chunk_text unicode_isalnum text chunk_size chunk_overlap strategy = Ok chunks ->
  c ∈ chunks ->
  exists ch, ch ∈ c /\ isspace ch = false.
Proof.
  intros Hrun Hc. apply strip_truthy. change (nonblank c).
  revert c Hc. apply Forall_forall.
  unfold chunk_text in Hrun. destruct (negb (truthy text)).
  { injection Hrun as <-. constructor. }
  assert (forall text', Forall nonblank
            (_chunk_by_sentence unicode_isalnum text' chunk_size chunk_overlap)) as Hsentence.
  { intros text'. unfold _chunk_by_sentence. cbv zeta.
    destruct (fold_left _ _ _) as [chunks' current] eqn:Hfold.
    apply loop_result_nonblank. rewrite <- Hfold.
    apply loop_invariant_fold.
    - intros. apply sentence_step_shape.
    - unfold _split_into_sentences. apply filter_nonblank.
    - split; [constructor|by left]. }
  destruct strategy.
  - unfold _chunk_by_fixed_size in Hrun. cbv zeta in Hrun.
    destruct (range 0 (len text) _) as [indices|e]; [|discriminate].
    rewrite fixed_size_loop in Hrun. injection Hrun as <-. simpl.
    apply filter_nonblank.
  - injection Hrun as <-. apply Hsentence.
  - injection Hrun as <-. unfold _chunk_by_paragraph. cbv zeta.
    destruct (fold_left _ _ _) as [chunks' current] eqn:Hfold.
    apply loop_result_nonblank. rewrite <- Hfold.
    apply loop_invariant_fold.
    + intros. apply paragraph_step_shape.
    + unfold _split_into_paragraphs. apply filter_nonblank.
    + split; [constructor|by left].
  - injection Hrun as <-. apply Hsentence.
Qed.

Lemma chunk_text_never_blank_witness :
  exists ch, ch ∈ str "A. B." /\ isspace ch = false.
Proof.
  apply (chunk_text_never_blank (fun _ => false) (str "A." ++ [newline] ++ str "B.") 100 0
           SENTENCE [str "A. B."] (str "A. B.")).
  - by vm_compute.
  - vm_compute. left.
Defined.

(** X2.  The edge sizes of fixed-size chunking, on a text that is not empty:
    a zero [chunk_size] with an overlap that is not negative makes the step
    zero, and [range] raises [ValueError]; a negative [chunk_size] that the
    overlap does not undercut makes the step negative, and no chunk comes
    back. *)
Theorem fixed_size_edge_sizes (unicode_isalnum : char -> bool) (text : pystr)
  (chunk_size chunk_overlap : Z) :
  text <> [] ->
  chunk_size <= chunk_overlap ->
  (chunk_size = 0 ->
   chunk_text unicode_isalnum text chunk_size chunk_overlap FIXED_SIZE =
   Raise (ValueError "range() arg 3 must not be zero"))
  /\ (chunk_size < 0 ->
      chunk_text unicode_isalnum text chunk_size chunk_overlap FIXED_SIZE = Ok []).
Proof.
  intros Htext Hle. unfold chunk_text.
  destruct text as [|c text]; [done|]. cbn [truthy negb].
  unfold _chunk_by_fixed_size. cbv zeta.
  destruct (Z.leb_spec (chunk_size - chunk_overlap) 0); [|lia]. split.
  - intros ->. reflexivity.
  - intros Hneg. unfold range, range_length.
    destruct (Z.eqb_spec chunk_size 0); [lia|].
    destruct (Z.ltb_spec 0 chunk_size); [lia|]. cbn [andb].
    destruct (Z.ltb_spec chunk_size 0); [|lia].
    destruct (Z.ltb_spec (len (c :: text)) 0); [unfold len in *; lia|].
    reflexivity.
Qed.

Lemma fixed_size_edge_sizes_witness :
  chunk_text (fun _ => false) (str "abc") 0 0 FIXED_SIZE =
    Raise (ValueError "range() arg 3 must not be zero").
Proof.
  apply (fixed_size_edge_sizes (fun _ => false) (str "abc") 0 0); [done|lia|reflexivity].
Defined.

Lemma slice_as_take_drop {A} (s : list A) (lo n : Z) :
  0 <= lo -> 0 <= n ->
  slice s lo (lo + n) = take (Z.to_nat n) (drop (Z.to_nat lo) s).
Proof.
  intros Hlo Hn. unfold slice, clamp_index, len. cbv zeta.
  destruct (Z.ltb_spec lo 0); [lia|]. destruct (Z.ltb_spec (lo + n) 0); [lia|].
  destruct (Z.le_gt_cases (Z.of_nat (length s)) lo) as [Hout|Hin].
  - rewrite !drop_ge by lia. by rewrite !take_nil.
  - replace (Z.to_nat (Z.min lo (Z.of_nat (length s)))) with (Z.to_nat lo) by lia.
    destruct (Z.le_gt_cases (lo + n) (Z.of_nat (length s))).
    + f_equal. lia.
    + rewrite !take_ge; [done| |]; rewrite length_drop; lia.
Qed.

Lemma concat_consecutive_takes {A} (s : list A) (n m : nat) :
  concat (map (fun k : nat => take n (drop (k * n) s)) (seq 0 m)) = take (m * n) s.
Proof.
  induction m as [|m IH]; [done|].
  rewrite seq_S, map_app, concat_app, IH. simpl. rewrite app_nil_r.
  rewrite take_take_drop. f_equal. lia.
Qed.

(** X3.  With a positive [chunk_size] and an overlap that is zero, or at least
    [chunk_size], the step is [chunk_size] and the slices tile the text: put
    end to end they give the text back, and the chunks returned are these
    slices without the blank ones. *)
Theorem fixed_size_slices_tile (unicode_isalnum : char -> bool) (text : pystr)
  (chunk_size chunk_overlap : Z) :
  0 < chunk_size ->
  chunk_overlap = 0 \/ chunk_size <= chunk_overlap ->
  concat (fixed_size_slices text chunk_size chunk_size) = text
  /\ chunk_text unicode_isalnum text chunk_size chunk_overlap FIXED_SIZE =
     Ok (filter nonblank (fixed_size_slices text chunk_size chunk_size)).
Proof.
  intros Hsize Hoverlap. split.
  - unfold fixed_size_slices, chunk_starts. rewrite map_map.
    set (m := Z.to_nat ((len text + chunk_size - 1) / chunk_size)).
    rewrite (map_ext _ (fun k : nat => take (Z.to_nat chunk_size)
                                         (drop (k * Z.to_nat chunk_size) text))).
    + rewrite concat_consecutive_takes. apply take_ge.
      assert (len text <= Z.of_nat m * chunk_size); [|unfold len in *; nia].
      unfold m. rewrite Z2Nat.id by (apply Z.div_pos; unfold len; lia).
      pose proof (Z.mul_succ_div_gt (len text + chunk_size - 1) chunk_size Hsize). lia.
    + intros k. rewrite slice_as_take_drop by lia. do 2 f_equal. nia.
  - destruct (chunk_text_fixed_size_total unicode_isalnum text chunk_size chunk_overlap Hsize)
      as (Hrun & _). rewrite Hrun. unfold fixed_size_slices, fixed_step.
    destruct (Z.ltb_spec 0 (chunk_size - chunk_overlap)); [|done].
    destruct Hoverlap as [->|?]; [|lia]. by rewrite Z.sub_0_r.
Qed.

Lemma fixed_size_slices_tile_witness :
  concat (fixed_size_slices (str "ab   cdef") 4 4) = str "ab   cdef".
Proof.
  apply (fixed_size_slices_tile (fun _ => false) (str "ab   cdef") 4 6); lia.
Defined.

(** The pieces that [re.split] returns are slices of the text. *)
Lemma pieces_between_slices (s : pystr) (spans : list (nat * nat)) (from : nat) :
  Forall (fun piece => is_slice_of piece s) (pieces_between s from spans).
Proof.
  revert from. induction spans as [|[a b] spans IH]; intros from; simpl.
  - apply Forall_singleton. exists (take from s), []. by rewrite app_nil_r, take_drop.
  - constructor; [|apply IH].
    exists (take from s), (drop (a - from) (drop from s)).
    by rewrite !take_drop.
Qed.

Lemma split_filter_slices (p : pattern) (text piece : pystr) :
  piece ∈ filter (fun s => truthy (strip s) = true) (re_split p text) ->
  is_slice_of piece text /\ exists ch, ch ∈ piece /\ isspace ch = false.
Proof.
  intros [Hnb Hin]%list_elem_of_filter. split; [|by apply strip_truthy].
  unfold re_split in Hin.
  pose proof (pieces_between_slices text (finditer p text) 0) as Hall.
  rewrite Forall_forall in Hall. by apply Hall.
Qed.

(** X4.  Every paragraph that [_split_into_paragraphs] returns is a contiguous
    slice of the text and is not blank. *)
Theorem paragraphs_are_nonblank_slices (text paragraph : pystr) :
  paragraph ∈ _split_into_paragraphs text ->
  is_slice_of paragraph text /\ exists ch, ch ∈ paragraph /\ isspace ch = false.
Proof. apply split_filter_slices. Qed.

Lemma paragraphs_are_nonblank_slices_witness :
  is_slice_of (str "b") (str "a" ++ [newline; newline; newline] ++ str "b")
  /\ exists ch, ch ∈ str "b" /\ isspace ch = false.
Proof.
  apply (paragraphs_are_nonblank_slices
           (str "a" ++ [newline; newline; newline] ++ str "b") (str "b")).
  vm_compute. right. left.
Defined.

(** X5.  Every sentence that the Arabic splitter returns is a contiguous slice
    of the text and is not blank. *)
Theorem arabic_sentences_are_nonblank_slices (text sentence : pystr) :
  sentence ∈ arabic_split_into_sentences text ->
  is_slice_of sentence text /\ exists ch, ch ∈ sentence /\ isspace ch = false.
Proof. apply split_filter_slices. Qed.

Lemma arabic_sentences_are_nonblank_slices_witness :
  is_slice_of [1606; 1567]%N ([1605; 46; 32; 1606; 1567]%N)
  /\ exists ch, ch ∈ [1606; 1567]%N /\ isspace ch = false.
Proof.
  apply (arabic_sentences_are_nonblank_slices [1605; 46; 32; 1606; 1567]%N [1606; 1567]%N).
  vm_compute. right. left.
Defined.

(** ** Training runs: refusals, stopped runs, missing models, completion *)












(** ** Conversations *)

(** X10.  [create_conversation] on a deployed agent returns the id drawn and
    stores a conversation that [get_conversation] then returns: it holds the
    system message when one is given and not empty, and nothing otherwise;
    the entries of other agents stay as they were. *)
Theorem create_then_get_conversation (now : Z) (uuid agent_id user_id : string)
  (system_message : option string) (w : AgentWorld) (runtime : AgentRuntime) :
  deployed_agents w !! agent_id = Some runtime ->
  exists w',
    create_conversation now uuid agent_id user_id system_message w = (Ok (Some uuid), w')
    /\ get_conversation agent_id uuid w' =
       (Ok (Some {| messages :=
                      match system_message with
                      | Some m =>
                          if decide (m = "") then []
                          else [{| role := "system"; content := m; timestamp := Some now |}]
                      | None => []
                      end;
                    last_updated := now |}), w')
    /\ (forall other, other <> agent_id ->
          deployed_agents w' !! other = deployed_agents w !! other)
    /\ objects w' = objects w.
Proof.
  intros Hagent. unfold create_conversation. run_m. rewrite Hagent. cbn.
  eexists. split; [reflexivity|]. split; [|split; [|done]].
  - unfold get_conversation. run_m. cbn. rewrite lookup_insert_eq. cbn.
    by rewrite lookup_insert_eq.
  - intros other Hother. cbn. by rewrite lookup_insert_ne.
Qed.

Lemma create_then_get_conversation_witness :
  exists w',
    create_conversation 9 "conv-2" "agent-1" "user-1" (Some "be brief")
      (sample_agent_world []) = (Ok (Some "conv-2"), w')
    /\ get_conversation "agent-1" "conv-2" w' =
       (Ok (Some {| messages := [{| role := "system"; content := "be brief";
                                   timestamp := Some 9 |}];
                    last_updated := 9 |}), w').
Proof.
  destruct (create_then_get_conversation 9 "conv-2" "agent-1" "user-1" (Some "be brief")
              (sample_agent_world []) (sample_runtime []) eq_refl)
    as (w' & Hcreate & Hget & _).
  exists w'. exact (conj Hcreate Hget).
Defined.

(** X11.  [add_message_to_conversation] appends the message at the end of the
    conversation and stamps the conversation and the agent with the time of
    the call; on a conversation that does not exist it returns [False] and
    changes nothing. *)
Theorem add_message_appends (now : Z) (agent_id conversation_id : string)
  (message : ChatMessage) (w : AgentWorld) (runtime : AgentRuntime) :
  deployed_agents w !! agent_id = Some runtime ->
  match active_conversations runtime !! conversation_id with
  | Some conversation =>
      exists w' runtime',
        add_message_to_conversation now agent_id conversation_id message w = (Ok true, w')
        /\ deployed_agents w' !! agent_id = Some runtime'
        /\ active_conversations runtime' !! conversation_id =
           Some {| messages := messages conversation ++ [message]; last_updated := now |}
        /\ last_used runtime' = now
        /\ runtime_agent runtime' = runtime_agent runtime
        /\ objects w' = objects w
  | None =>
      add_message_to_conversation now agent_id conversation_id message w = (Ok false, w)
  end.
Proof.
  intros Hagent. unfold add_message_to_conversation, update_agent_last_used. run_m.
  rewrite Hagent.
  destruct (active_conversations runtime !! conversation_id) as [conversation|]; [|done].
  cbn. rewrite lookup_insert_eq. eexists _, _. split; [reflexivity|]. cbn.
  rewrite lookup_insert_eq. split; [reflexivity|]. cbn.
  by rewrite lookup_insert_eq.
Qed.

Lemma add_message_appends_witness :
  exists w' runtime',
    add_message_to_conversation 4 "agent-1" "conv-1"
      {| role := "user"; content := "hi"; timestamp := None |} (sample_agent_world [])
      = (Ok true, w')
    /\ deployed_agents w' !! "agent-1" = Some runtime'
    /\ last_used runtime' = 4.
Proof.
  pose proof (add_message_appends 4 "agent-1" "conv-1"
                {| role := "user"; content := "hi"; timestamp := None |}
                (sample_agent_world []) (sample_runtime []) eq_refl) as H.
  change (active_conversations (sample_runtime []) !! "conv-1")
    with (Some {| messages := []; last_updated := 0 |}) in H.
  destruct H as (w' & runtime' & Hrun & Hreg & _ & Hused & _).
  exists w', runtime'. exact (conj Hrun (conj Hreg Hused)).
Defined.

Lemma merge_into_agent_config_result (agent : ref) extra (w : AgentWorld) :
  exists w',
    merge_into_agent_config agent extra w = (Ok tt, w')
    /\ deployed_agents w' = deployed_agents w
    /\ Agent.config (objects w' agent) = config_after_merge (Agent.config (objects w agent)) extra
    /\ Agent.status (objects w' agent) = Agent.status (objects w agent)
    /\ (forall other, other <> agent -> objects w' other = objects w other).
Proof.
  unfold merge_into_agent_config. run_m.
  destruct (Agent.config (objects w agent)) as [[|kv d]|] eqn:Hconfig,
    extra as [[|kv' d']|]; cbn;
    eexists; (split; [reflexivity|]); cbn; rewrite ?fn_lookup_insert, ?Hconfig;
    repeat split; try done; intros other Hother; by rewrite fn_lookup_insert_ne.
Qed.

(** X12.  [generate_response], on a deployed agent with the conversation at
    hand, records its response as the last message of the conversation and
    stamps the conversation and the agent with the time of the call. *)
Theorem generate_response_is_recorded (now : Z) (agent_id conversation_id : string)
  (generation_config : option config_dict) (w : AgentWorld) (runtime : AgentRuntime)
  (conversation : Conversation) :
  deployed_agents w !! agent_id = Some runtime ->
  active_conversations runtime !! conversation_id = Some conversation ->
  exists response w' runtime',
    generate_response now agent_id conversation_id generation_config w =
      (Ok (Some response), w')
    /\ deployed_agents w' !! agent_id = Some runtime'
    /\ active_conversations runtime' !! conversation_id =
       Some {| messages := messages conversation ++ [response]; last_updated := now |}
    /\ last_used runtime' = now
    /\ timestamp response = Some now.
Proof.
  intros Hagent Hconv. unfold generate_response. run_m. rewrite Hagent, Hconv.
  destruct (merge_into_agent_config_result (runtime_agent runtime) generation_config w)
    as (w1 & -> & Hreg1 & _).
  rewrite <- Hreg1 in Hagent.
  match goal with
  | |- context [add_message_to_conversation now agent_id conversation_id ?m w1] =>
      pose proof (add_message_appends now agent_id conversation_id m w1 runtime Hagent)
        as Hadd
  end.
  rewrite Hconv in Hadd.
  destruct Hadd as (w2 & runtime2 & -> & Hreg2 & Hconv2 & Hused2 & _).
  unfold update_agent_last_used. run_m. rewrite Hreg2. cbn.
  eexists _, _, _. split; [reflexivity|]. cbn. rewrite lookup_insert_eq.
  split; [reflexivity|]. cbn. done.
Qed.

Lemma generate_response_is_recorded_witness :
  exists response w' runtime',
    generate_response 6 "agent-1" "conv-1" None (sample_agent_world []) =
      (Ok (Some response), w')
    /\ deployed_agents w' !! "agent-1" = Some runtime'
    /\ active_conversations runtime' !! "conv-1" =
       Some {| messages := [] ++ [response]; last_updated := 6 |}.
Proof.
  destruct (generate_response_is_recorded 6 "agent-1" "conv-1" None (sample_agent_world [])
              (sample_runtime []) {| messages := []; last_updated := 0 |} eq_refl eq_refl)
    as (response & w' & runtime' & Hrun & Hreg & Hconv & _).
  exists response, w', runtime'. exact (conj Hrun (conj Hreg Hconv)).
Defined.

(** X13.  The generation configuration of one request stays with the agent:
    when the agent's configuration is a dictionary that is not empty,
    [generate_response] updates it in place with the request's
    configuration; an empty or missing one is left as it is. *)
Theorem generate_response_updates_agent_config (now : Z)
  (agent_id conversation_id : string) (generation_config : option config_dict)
  (w : AgentWorld) (runtime : AgentRuntime) (conversation : Conversation) :
  deployed_agents w !! agent_id = Some runtime ->
  active_conversations runtime !! conversation_id = Some conversation ->
  Agent.config (objects (generate_response now agent_id conversation_id generation_config w).2
                  (runtime_agent runtime)) =
  config_after_merge (Agent.config (objects w (runtime_agent runtime))) generation_config.
Proof.
  intros Hagent Hconv. unfold generate_response. run_m. rewrite Hagent, Hconv.
  destruct (merge_into_agent_config_result (runtime_agent runtime) generation_config w)
    as (w1 & -> & Hreg1 & Hconfig & _).
  rewrite <- Hreg1 in Hagent.
  match goal with
  | |- context [add_message_to_conversation now agent_id conversation_id ?m w1] =>
      pose proof (add_message_appends now agent_id conversation_id m w1 runtime Hagent)
        as Hadd
  end.
  rewrite Hconv in Hadd.
  destruct Hadd as (w2 & runtime2 & -> & Hreg2 & _ & _ & _ & Hobjects).
  unfold update_agent_last_used. run_m. rewrite Hreg2. cbn.
  by rewrite Hobjects.
Qed.

Lemma generate_response_updates_agent_config_witness :
  Agent.config
    (objects (generate_response 6 "agent-1" "conv-1"
                (Some [("temperature", ConfigAtom (PyInt 2))]) (sample_agent_world [])).2
       0%nat) = Some [("temperature", ConfigAtom (PyInt 2))].
Proof.
  exact (generate_response_updates_agent_config 6 "agent-1" "conv-1"
           (Some [("temperature", ConfigAtom (PyInt 2))]) (sample_agent_world [])
           (sample_runtime []) {| messages := []; last_updated := 0 |} eq_refl eq_refl).
Defined.

(** X14.  The refusals of the two generators: without the conversation both
    return [None], and [generate_rag_response] also returns [None] for an
    agent that is not a RAG agent; in each case nothing changes. *)
Theorem generators_refuse (now : Z) (uuid1 uuid2 agent_id conversation_id : string)
  (rc gc : option config_dict) (w : AgentWorld) (runtime : AgentRuntime) :
  deployed_agents w !! agent_id = Some runtime ->
  (active_conversations runtime !! conversation_id = None ->
   generate_response now agent_id conversation_id gc w = (Ok None, w)
   /\ generate_rag_response now uuid1 uuid2 agent_id conversation_id rc gc w = (Ok None, w))
  /\ (Agent.agent_type (objects w (runtime_agent runtime)) = AgentType.FINE_TUNED ->
      generate_rag_response now uuid1 uuid2 agent_id conversation_id rc gc w = (Ok None, w)).
Proof.
  intros Hagent. split.
  - intros Hconv. unfold generate_response, generate_rag_response. run_m.
    by rewrite Hagent, Hconv.
  - intros Htype. unfold generate_rag_response. run_m. rewrite Hagent.
    destruct (active_conversations runtime !! conversation_id); [|done].
    by rewrite Htype.
Qed.

Lemma generators_refuse_witness :
  generate_response 6 "agent-1" "conv-9" None (sample_agent_world []) =
    (Ok None, sample_agent_world []).
Proof.
  destruct (generators_refuse 6 "u1" "u2" "agent-1" "conv-9" None None
              (sample_agent_world []) (sample_runtime []) eq_refl) as [Hmissing _].
  exact (proj1 (Hmissing eq_refl)).
Defined.

(** ** Stopping agents *)

Lemma stop_agent_effect (agent_id : string) (w : AgentWorld) :
  exists w',
    stop_agent agent_id w = (Ok true, w')
    /\ deployed_agents w' = delete agent_id (deployed_agents w)
    /\ only_stopped w w'
    /\ (forall runtime,
          deployed_agents w !! agent_id = Some runtime ->
          Agent.status (objects w' (runtime_agent runtime)) = AgentStatus.STOPPED).
Proof.
  unfold stop_agent. run_m.
  destruct (deployed_agents w !! agent_id) as [runtime|] eqn:Hreg; cbn.
  - eexists. split; [reflexivity|]. cbn. split; [done|]. split.
    + intros agent. cbn. destruct (decide (agent = runtime_agent runtime)) as [->|Hne].
      * right. by rewrite fn_lookup_insert.
      * left. by rewrite fn_lookup_insert_ne.
    + intros runtime' [= <-]. by rewrite fn_lookup_insert.
  - exists w. split; [done|]. split; [by rewrite delete_id|].
    split; [by left|]. intros runtime' [=].
Qed.

Lemma only_stopped_trans (w1 w2 w3 : AgentWorld) :
  only_stopped w1 w2 -> only_stopped w2 w3 -> only_stopped w1 w3.
Proof.
  intros H12 H23 agent. destruct (H12 agent) as [E12|E12], (H23 agent) as [E23|E23];
    rewrite E23, E12; auto.
Qed.

Lemma only_stopped_keeps_stopped (w w' : AgentWorld) (agent : ref) :
  only_stopped w w' ->
  Agent.status (objects w agent) = AgentStatus.STOPPED ->
  Agent.status (objects w' agent) = AgentStatus.STOPPED.
Proof. intros H Hs. destruct (H agent) as [->| ->]; done. Qed.

(** Stopping the agents of a list of ids, one after the other. *)
Lemma stop_each (keys : list string) (w : AgentWorld) :
  exists w',
    for_each keys (fun agent_id => _ ← stop_agent agent_id; mret tt) w = (Ok tt, w')
    /\ (forall k, deployed_agents w' !! k =
                  if decide (k ∈ keys) then None else deployed_agents w !! k)
    /\ only_stopped w w'
    /\ (forall k runtime,
          k ∈ keys -> deployed_agents w !! k = Some runtime ->
          Agent.status (objects w' (runtime_agent runtime)) = AgentStatus.STOPPED).
Proof.
  revert w. induction keys as [|k0 keys IH]; intros w.
  - exists w. split; [done|]. split; [|split; [by left|]].
    + intros k. by rewrite decide_False by apply not_elem_of_nil.
    + intros k runtime Hk. by apply not_elem_of_nil in Hk.
  - destruct (stop_agent_effect k0 w) as (w1 & Hstop & Hreg1 & Hobj1 & Hstopped1).
    destruct (IH w1) as (w' & Hrun & Hreg & Hobj & Hstopped).
    exists w'. split; [|split; [|split]].
    + cbn [for_each]. unfold mbind, M_bind at 1. unfold mbind, M_bind at 1.
      rewrite Hstop. unfold mret, M_ret at 1. exact Hrun.
    + intros k. rewrite Hreg, Hreg1.
      destruct (decide (k = k0)) as [->|Hne].
      * rewrite lookup_delete_eq. rewrite (decide_True (P := k0 ∈ k0 :: keys)) by left.
        by destruct (decide (k0 ∈ keys)).
      * rewrite lookup_delete_ne by done.
        destruct (decide (k ∈ keys)) as [Hin|Hnotin].
        -- by rewrite decide_True by (by right).
        -- rewrite decide_False; [done|]. by intros [?|?]%elem_of_cons.
    + by eapply only_stopped_trans.
    + intros k runtime Hk Hlookup.
      destruct (decide (k = k0)) as [->|Hne].
      * eapply only_stopped_keeps_stopped; [done|]. by apply Hstopped1.
      * apply (Hstopped k); [by apply elem_of_cons in Hk as [?|?]|].
        by rewrite Hreg1, lookup_delete_ne.
Qed.

Lemma registry_keys_spec (w : AgentWorld) (k : string) :
  k ∈ registry_keys w <-> is_Some (deployed_agents w !! k).
Proof.
  unfold registry_keys. rewrite list_elem_of_fmap. split.
  - intros ([k' runtime] & -> & Hin). apply elem_of_map_to_list in Hin. by exists runtime.
  - intros [runtime Hk]. exists (k, runtime). split; [done|]. by apply elem_of_map_to_list.
Qed.

(** X15.  [stop_all_agents] empties the registry and leaves every agent that
    was deployed [STOPPED]; no agent object changes in any other way. *)
Theorem stop_all_agents_stops_all (w : AgentWorld) :
  exists w',
    stop_all_agents w = (Ok tt, w')
    /\ deployed_agents w' = ∅
    /\ (forall agent_id runtime,
          deployed_agents w !! agent_id = Some runtime ->
          Agent.status (objects w' (runtime_agent runtime)) = AgentStatus.STOPPED)
    /\ only_stopped w w'.
Proof.
  destruct (stop_each (registry_keys w) w) as (w' & Hrun & Hreg & Hobj & Hstopped).
  exists w'. split; [|split; [|split; [|done]]].
  - unfold stop_all_agents. run_m. exact Hrun.
  - apply map_eq. intros k. rewrite Hreg, lookup_empty.
    destruct (decide (k ∈ registry_keys w)) as [|Hnotin]; [done|].
    rewrite registry_keys_spec in Hnotin.
    by apply eq_None_not_Some.
  - intros agent_id runtime Hlookup. apply (Hstopped agent_id); [|done].
    apply registry_keys_spec. by exists runtime.
Qed.

(** X16.  With a settings object whose [MAX_DEPLOYED_AGENTS] is an integer,
    [deploy_agent] keeps the registry within the limit: an agent already
    deployed is left alone, a new agent is refused without a change when the
    registry has reached the limit, and is otherwise registered with the
    time of the call, no conversation, and the status [DEPLOYED]. *)
Theorem deploy_agent_keeps_limit (settings : PyObject) (limit now : Z) (agent : ref)
  (w : AgentWorld) :
  settings "MAX_DEPLOYED_AGENTS" = Ok (AttrInt limit) ->
  Z.of_nat (size (deployed_agents w)) <= limit ->
  Z.of_nat (size (deployed_agents (deploy_agent settings now agent w).2)) <= limit
  /\ (is_Some (deployed_agents w !! Agent.id (objects w agent)) ->
      deploy_agent settings now agent w = (Ok true, w))
  /\ (deployed_agents w !! Agent.id (objects w agent) = None ->
      limit <= Z.of_nat (size (deployed_agents w)) ->
      deploy_agent settings now agent w = (Ok false, w))
  /\ (deployed_agents w !! Agent.id (objects w agent) = None ->
      Z.of_nat (size (deployed_agents w)) < limit ->
      exists w' runtime,
        deploy_agent settings now agent w = (Ok true, w')
        /\ deployed_agents w' !! Agent.id (objects w agent) = Some runtime
        /\ runtime_agent runtime = agent
        /\ last_used runtime = now
        /\ active_conversations runtime = ∅
        /\ Agent.status (objects w' agent) = AgentStatus.DEPLOYED).
Proof.
  intros Hattr Hsize.
  assert (is_Some (deployed_agents w !! Agent.id (objects w agent)) ->
          deploy_agent settings now agent w = (Ok true, w)) as Hold.
  { intros Hin. unfold deploy_agent, deploy_agent_body. run_m.
    by rewrite decide_True. }
  assert (deployed_agents w !! Agent.id (objects w agent) = None ->
          limit <= Z.of_nat (size (deployed_agents w)) ->
          deploy_agent settings now agent w = (Ok false, w)) as Hfull.
  { intros Hnew Hlim. unfold deploy_agent, deploy_agent_body. run_m.
    rewrite Hnew. rewrite decide_False by (intros [? ?]; discriminate).
    rewrite Hattr. cbn. destruct (Z.leb_spec limit (Z.of_nat (size (deployed_agents w))));
      [|lia]. by destruct w. }
  assert (deployed_agents w !! Agent.id (objects w agent) = None ->
          Z.of_nat (size (deployed_agents w)) < limit ->
          exists w' runtime,
            deploy_agent settings now agent w = (Ok true, w')
            /\ deployed_agents w' =
               <[Agent.id (objects w agent) := runtime]> (deployed_agents w)
            /\ runtime_agent runtime = agent
            /\ last_used runtime = now
            /\ active_conversations runtime = ∅
            /\ Agent.status (objects w' agent) = AgentStatus.DEPLOYED) as Hnew.
  { intros Hnew Hlim. unfold deploy_agent, deploy_agent_body. run_m.
    rewrite Hnew. rewrite decide_False by (intros [? ?]; discriminate).
    rewrite Hattr. cbn. destruct (Z.leb_spec limit (Z.of_nat (size (deployed_agents w))));
      [lia|]. unfold load_fine_tuned_model, load_rag_model. run_m.
    destruct (Agent.agent_type (objects w agent)); cbn;
      eexists _, _; (split; [reflexivity|]); cbn; rewrite fn_lookup_insert; done. }
  split; [|split; [done|split; [done|]]].
  - destruct (deployed_agents w !! Agent.id (objects w agent)) eqn:Hlookup.
    + by rewrite Hold.
    + destruct (Z.le_gt_cases limit (Z.of_nat (size (deployed_agents w)))) as [Hle|Hlt].
      * by rewrite Hfull.
      * destruct (Hnew eq_refl ltac:(lia)) as (w' & runtime & Hrun & Hreg & _).
        rewrite Hrun. cbn [snd]. rewrite Hreg, map_size_insert_None by done. lia.
  - intros Hnone Hlt. destruct (Hnew Hnone Hlt) as (w' & runtime & Hrun & Hreg & Hrest).
    exists w', runtime. split; [done|]. split; [|done].
    by rewrite Hreg, lookup_insert_eq.
Qed.

Lemma deploy_agent_keeps_limit_witness :
  Z.of_nat (size (deployed_agents
                    (deploy_agent (flat_settings_object sample_settings) 3 0%nat
                       {| objects := fun _ => sample_agent; deployed_agents := ∅ |}).2))
    <= 5.
Proof.
  refine (proj1 (deploy_agent_keeps_limit (flat_settings_object sample_settings) 5 3 0%nat
                   {| objects := fun _ => sample_agent; deployed_agents := ∅ |} _ _)).
  - reflexivity.
  - by vm_compute.
Defined.




(** ** The RAG service: missing models and effective settings *)



Lemma merge_config_lookup (model_config : gmap string pyval)
  (config : option (gmap string pyval)) (key : string) (fallback : pyval) :
  default fallback (merge_config model_config config !! key) =
  effective_setting key fallback model_config config.
Proof.
  unfold merge_config, effective_setting. destruct config as [request|]; simpl.
  - rewrite lookup_union. destruct (request !! key), (model_config !! key); done.
  - by rewrite lookup_union, lookup_empty, (left_id None _).
Qed.

(** X19.  [retrieve] searches the model's dataset with the model's embedding
    model; [top_k] and the similarity threshold are the request's when the
    request gives them, else the model's, else 5 and 0.7; and it returns one
    context for each chunk found, in the order found. *)
Theorem retrieve_effective_settings
  (vector_store_search : string -> string -> string -> pyval -> pyval -> result (list Chunk.t))
  (get_document : string -> option string)
  (db : RagDatabase) (model_id query_text : string) (model : Model) (rag_config : RAGConfig)
  (retrieval_config : option (gmap string pyval)) :
  get_rag_model db model_id = Some (model, rag_config) ->
  retrieve vector_store_search get_document db model_id query_text retrieval_config =
  match vector_store_search query_text (rag_dataset_id rag_config)
          (rag_embedding_model rag_config)
          (effective_setting "top_k" (PyInt 5) (rag_retrieval_config rag_config)
             retrieval_config)
          (effective_setting "similarity_threshold" (PyFloat 0.7)
             (rag_retrieval_config rag_config) retrieval_config) with
  | Ok chunks => Ok (map (context_of_chunk get_document) chunks)
  | Raise e => Raise e
  end.
Proof.
  intros Hmodel. unfold retrieve. rewrite Hmodel. cbv zeta.
  rewrite !merge_config_lookup. unfold mbind, result_bind, mret, result_ret. done.
Qed.

Lemma retrieve_effective_settings_witness :
  retrieve (fun _ _ _ top_k _ =>
              match top_k with PyInt 2 => Ok [sample_chunk] | _ => Ok [] end)
    (fun _ => Some "Manual") sample_rag_db "rag-1" "question" (Some {["top_k" := PyInt 2]}) =
  Ok [{| context_text := "alpha"; context_document_id := "doc-1";
         context_document_name := "Manual"; context_chunk_id := "chunk-1";
         context_score := 0.5%float; context_page_numbers := None |}].
Proof.
  rewrite (retrieve_effective_settings _ _ sample_rag_db "rag-1" "question"
             {| model_name := "kb"; model_base_model := "base";
                model_type := ModelType.RAG; model_status := ModelStatus.READY |}
             {| rag_dataset_id := "dataset-1"; rag_embedding_model := "embedder";
                rag_retrieval_config := ∅; rag_generation_config := ∅ |}
             (Some {["top_k" := PyInt 2]}) eq_refl).
  reflexivity.
Defined.

(** X20.  What [query] returns does not depend on the generation
    configuration, and depends on the retrieval configuration only through
    the effective [top_k] and similarity threshold. *)
Theorem query_depends_on_effective_settings
  (vector_store_search : string -> string -> string -> pyval -> pyval -> result (list Chunk.t))
  (get_document : string -> option string) (format_2f : float -> string)
  (db : RagDatabase) (model_id query_text : string) (model : Model) (rag_config : RAGConfig)
  (rc1 rc2 gc1 gc2 : option (gmap string pyval)) :
  get_rag_model db model_id = Some (model, rag_config) ->
  effective_setting "top_k" (PyInt 5) (rag_retrieval_config rag_config) rc1 =
    effective_setting "top_k" (PyInt 5) (rag_retrieval_config rag_config) rc2 ->
  effective_setting "similarity_threshold" (PyFloat 0.7) (rag_retrieval_config rag_config) rc1 =
    effective_setting "similarity_threshold" (PyFloat 0.7) (rag_retrieval_config rag_config)
      rc2 ->
  query vector_store_search get_document format_2f db model_id query_text rc1 gc1 =
  query vector_store_search get_document format_2f db model_id query_text rc2 gc2.
Proof.
  intros Hmodel Htop Hthreshold. unfold query.
  rewrite !(retrieve_effective_settings _ _ _ _ _ _ _ _ Hmodel), Htop, Hthreshold.
  unfold mbind, result_bind.
  destruct (vector_store_search _ _ _ _ _) as [chunks|e]; [|done].
  unfold generate. by rewrite Hmodel.
Qed.

Lemma query_depends_on_effective_settings_witness :
  query (constant_store [sample_chunk]) (fun _ => None) (fun _ => "0.50") sample_rag_db
    "rag-1" "question" None (Some {["temperature" := PyInt 1]}) =
  query (constant_store [sample_chunk]) (fun _ => None) (fun _ => "0.50") sample_rag_db
    "rag-1" "question" (Some {["top_k" := PyInt 5]}) None.
Proof.
  apply (query_depends_on_effective_settings _ _ _ sample_rag_db "rag-1" "question"
           {| model_name := "kb"; model_base_model := "base";
              model_type := ModelType.RAG; model_status := ModelStatus.READY |}
           {| rag_dataset_id := "dataset-1"; rag_embedding_model := "embedder";
              rag_retrieval_config := ∅; rag_generation_config := ∅ |});
    reflexivity.
Defined.

(** ** Chunk sizes without overlap *)

Lemma sentence_step_without_overlap (chunk_size chunk_overlap : Z)
  (chunks : list pystr) (current sentence : pystr) :
  chunk_overlap <= 0 ->
  exists sep,
    len sep <= 1
    /\ sentence_step chunk_size chunk_overlap (chunks, current) sentence =
       if (len current + len sentence >? chunk_size) && truthy current
       then (chunks ++ [current], sentence)
       else (chunks, (if truthy current then current ++ sep else current) ++ sentence).
Proof.
  intros Hoverlap. unfold sentence_step.
  destruct (Z.gtb_spec chunk_overlap 0); [lia|].
  destruct ((len current + len sentence >? chunk_size) && truthy current).
  - exists []. split; [done|]. done.
  - destruct (truthy current) eqn:Htruthy; cbn [andb].
    + destruct (negb (endswith current (str " "))).
      * exists (str " "). split; [done|]. done.
      * exists []. split; [done|]. by rewrite app_nil_r.
    + exists []. split; [done|]. done.
Qed.

Lemma paragraph_step_without_overlap (unicode_isalnum : char -> bool)
  (chunk_size chunk_overlap : Z) (chunks : list pystr) (current paragraph : pystr) :
  chunk_overlap <= 0 ->
  exists sep,
    len sep <= 2
    /\ paragraph_step unicode_isalnum chunk_size chunk_overlap (chunks, current) paragraph =
       if (len current + len paragraph >? chunk_size) && truthy current
       then (chunks ++ [current], paragraph)
       else (chunks, (if truthy current then current ++ sep else current) ++ paragraph).
Proof.
  intros Hoverlap. unfold paragraph_step.
  destruct (Z.gtb_spec chunk_overlap 0); [lia|].
  destruct ((len current + len paragraph >? chunk_size) && truthy current).
  - exists []. split; [done|]. done.
  - destruct (truthy current) eqn:Htruthy; cbn [andb].
    + destruct (negb (endswith current [newline; newline])).
      * exists [newline; newline]. split; [done|]. done.
      * exists []. split; [done|]. by rewrite app_nil_r.
    + exists []. split; [done|]. done.
Qed.

Lemma bounded_fold (step : list pystr * pystr -> pystr -> list pystr * pystr)
  (chunk_size separator : Z) (all pieces : list pystr) (st : list pystr * pystr) :
  0 <= separator ->
  (forall chunks current piece,
     exists sep,
       len sep <= separator
       /\ step (chunks, current) piece =
          if (len current + len piece >? chunk_size) && truthy current
          then (chunks ++ [current], piece)
          else (chunks, (if truthy current then current ++ sep else current) ++ piece)) ->
  pieces ⊆ all ->
  Forall (within_bound all chunk_size separator) st.1 ->
  (st.2 = [] \/ within_bound all chunk_size separator st.2) ->
  Forall (within_bound all chunk_size separator) (fold_left step pieces st).1
  /\ ((fold_left step pieces st).2 = []
      \/ within_bound all chunk_size separator (fold_left step pieces st).2).
Proof.
  intros Hsep Hstep. revert st.
  induction pieces as [|piece pieces IH]; intros [chunks current] Hsub Hall Hcur; [done|].
  cbn [fold_left]. assert (piece ∈ all) as Hpiece by (apply Hsub; left).
  apply IH; [intros x Hx; apply Hsub; by right| |];
    destruct (Hstep chunks current piece) as (sep & Hlen & ->); simpl in *;
    destruct (Z.gtb_spec (len current + len piece) chunk_size) as [Hgt|Hle];
    destruct (truthy current) eqn:Htruthy; cbn [andb fst snd].
  - apply Forall_app. split; [done|]. apply Forall_singleton.
    destruct Hcur as [->|Hcur]; [discriminate|done].
  - done.
  - done.
  - done.
  - right. by left.
  - right. destruct current; [|discriminate]. by left.
  - right. right. unfold len in *. rewrite !length_app. lia.
  - right. destruct current; [|discriminate]. by left.
Qed.

(** X21.  Without overlap ([chunk_overlap <= 0]), a chunk of the sentence
    strategy is one sentence alone or at most [chunk_size + 1] long, and a
    chunk of the paragraph strategy is one paragraph alone or at most
    [chunk_size + 2] long: the separator is not counted when a piece is
    added. *)
Theorem chunks_without_overlap_bounded (unicode_isalnum : char -> bool) (text : pystr)
  (chunk_size chunk_overlap : Z) (c : pystr) :
  chunk_overlap <= 0 ->
  (c ∈ _chunk_by_sentence unicode_isalnum text chunk_size chunk_overlap ->
   c ∈ _split_into_sentences unicode_isalnum text \/ len c <= chunk_size + 1)
  /\ (c ∈ _chunk_by_paragraph unicode_isalnum text chunk_size chunk_overlap ->
      c ∈ _split_into_paragraphs text \/ len c <= chunk_size + 2).
Proof.
  intros Hoverlap. split.
  - unfold _chunk_by_sentence. cbv zeta.
    pose proof (bounded_fold (sentence_step chunk_size chunk_overlap) chunk_size 1
                  (_split_into_sentences unicode_isalnum text)
                  (_split_into_sentences unicode_isalnum text) ([], [])) as H.
    destruct (fold_left _ _ _) as [chunks current].
    destruct H as [Hall Hcur]; [lia| |done|constructor|by left|].
    { intros. by apply sentence_step_without_overlap. }
    simpl in *. destruct (truthy (strip current)) eqn:Hstrip.
    + intros [Hc|Hc%list_elem_of_singleton]%elem_of_app.
      * by apply (proj1 (Forall_forall _ _) Hall).
      * subst c. destruct Hcur as [->|Hcur]; [discriminate|done].
    + intros Hc. by apply (proj1 (Forall_forall _ _) Hall).
  - unfold _chunk_by_paragraph. cbv zeta.
    pose proof (bounded_fold (paragraph_step unicode_isalnum chunk_size chunk_overlap)
                  chunk_size 2 (_split_into_paragraphs text)
                  (_split_into_paragraphs text) ([], [])) as H.
    destruct (fold_left _ _ _) as [chunks current].
    destruct H as [Hall Hcur]; [lia| |done|constructor|by left|].
    { intros. by apply paragraph_step_without_overlap. }
    simpl in *. destruct (truthy (strip current)) eqn:Hstrip.
    + intros [Hc|Hc%list_elem_of_singleton]%elem_of_app.
      * by apply (proj1 (Forall_forall _ _) Hall).
      * subst c. destruct Hcur as [->|Hcur]; [discriminate|done].
    + intros Hc. by apply (proj1 (Forall_forall _ _) Hall).
Qed.

Lemma chunks_without_overlap_bounded_witness :
  str "ab. cd." ∈ _split_into_sentences (fun _ => false) (str "ab. cd. ef gh.")
  \/ len (str "ab. cd.") <= 6 + 1.
Proof.
  apply (proj1 (chunks_without_overlap_bounded (fun _ => false) (str "ab. cd. ef gh.") 6 0
                  (str "ab. cd.") ltac:(lia))).
  vm_compute. left.
Defined.

(** ** The validator of the OCR languages *)

Lemma split_on_nonempty (sep : char) (s : pystr) : split_on sep s <> [].
Proof. destruct s as [|c s]; simpl; [done|]. by destruct (c =? sep)%N, (split_on sep s). Qed.

Lemma join_cons (sep p : pystr) (ps : list pystr) :
  ps <> [] -> join sep (p :: ps) = p ++ sep ++ join sep ps.
Proof. by destruct ps. Qed.

Lemma split_on_join (sep : char) (s : pystr) : join [sep] (split_on sep s) = s.
Proof.
  induction s as [|c s IH]; [done|]. simpl.
  pose proof (split_on_nonempty sep s) as Hne.
  destruct (N.eqb_spec c sep) as [->|Hc].
  - rewrite join_cons by done. by rewrite IH.
  - destruct (split_on sep s) as [|piece rest]; [done|].
    rewrite <- IH. by destruct rest.
Qed.

Lemma split_on_free (sep : char) (s piece : pystr) :
  piece ∈ split_on sep s -> sep ∉ piece.
Proof.
  revert piece. induction s as [|c s IH]; intros piece; simpl.
  - intros ->%list_elem_of_singleton. apply not_elem_of_nil.
  - destruct (N.eqb_spec c sep) as [->|Hne].
    + intros [->|Hin]%elem_of_cons; [apply not_elem_of_nil|by apply IH].
    + pose proof (split_on_nonempty sep s).
      destruct (split_on sep s) as [|first rest] eqn:E; [done|].
      intros [->|Hin]%elem_of_cons.
      * intros [?|Hin]%elem_of_cons; [congruence|]. apply (IH first); [by left|done].
      * apply IH. by right.
Qed.

Lemma drop_while_head {A} (p : A -> bool) (s : list A) c r :
  drop_while p s = c :: r -> p c = false.
Proof.
  induction s as [|a s IH]; simpl; [done|].
  destruct (p a) eqn:Ea; [done|]. by intros [= <- _].
Qed.

Lemma drop_while_suffix {A} (p : A -> bool) (s : list A) :
  exists pre, s = pre ++ drop_while p s.
Proof.
  induction s as [|a s [pre IH]]; simpl; [by exists []|].
  destruct (p a); [|by exists []]. exists (a :: pre). simpl. by rewrite <- IH.
Qed.

(** What [strip] returns neither starts nor ends with whitespace. *)
Lemma strip_ends (s : pystr) :
  (forall c r, strip s = c :: r -> isspace c = false)
  /\ (forall c r, strip s = r ++ [c] -> isspace c = false).
Proof.
  unfold strip, rstrip, lstrip.
  set (y := drop_while isspace s). set (z := drop_while isspace (rev y)). split.
  - intros c r Hrev.
    destruct (drop_while_suffix isspace (rev y)) as [pre Hpre]. fold z in Hpre.
    assert (y = rev z ++ rev pre) as Hy.
    { rewrite <- (rev_involutive y), Hpre, rev_app_distr. done. }
    rewrite Hrev in Hy. simpl in Hy. by apply (drop_while_head isspace s c (r ++ rev pre)).
  - intros c r Hrev.
    assert (z = c :: rev r) as Hz.
    { rewrite <- (rev_involutive z), Hrev, rev_app_distr. done. }
    by apply (drop_while_head isspace (rev y) c (rev r)).
Qed.

Lemma elem_of_strip (s : pystr) (c : char) : c ∈ strip s -> c ∈ s.
Proof.
  unfold strip, rstrip, lstrip. rewrite list_elem_of_In, <- in_rev, <- list_elem_of_In.
  intros H%elem_of_drop_while.
  rewrite list_elem_of_In, <- in_rev, <- list_elem_of_In in H.
  by apply elem_of_drop_while in H.
Qed.

(** X22.  Splitting at commas loses nothing: the pieces joined by commas give
    the text back.  An item that [parse_languages] reads from a text holds no
    comma and neither starts nor ends with whitespace; a list is passed on as
    it is. *)
Theorem parse_languages_items (v : pystr) :
  join [comma] (split_on comma v) = v
  /\ (forall item,
        item ∈ parse_languages (LanguagesText v) ->
        (comma ∉ item)
        /\ (forall c r, item = c :: r -> isspace c = false)
        /\ (forall c r, item = r ++ [c] -> isspace c = false))
  /\ (forall l, parse_languages (LanguagesList l) = l).
Proof.
  split; [apply split_on_join|]. split; [|done].
  intros item Hitem. unfold parse_languages in Hitem.
  apply list_elem_of_In, in_map_iff in Hitem as (piece & <- & Hpiece).
  apply list_elem_of_In in Hpiece. split.
  - intros Hcomma%elem_of_strip. by apply (split_on_free comma v piece).
  - apply strip_ends.
Qed.
